(** * selenium-mcp: the session registry and the command dispatcher

    A shallow embedding of [src/server.py].  The module keeps one
    process-wide dictionary [state] with two entries, ["drivers"] (session
    id to WebDriver handle) and ["current_session"]; every tool function
    reads the current driver through [get_driver], performs engine calls
    and turns any exception into a text result.

    The browser engine (selenium), the wall clock, the file system and
    [base64.b64decode] are collaborators outside the repository.  They are
    modelled by an environment [Env]: an oracle that answers each call from
    the history of calls made so far, either with a value or with an
    exception.  Every call is appended to the [trace] of the world, so that
    "no engine call was made" is a statement about the trace.

    Two parts of Python itself are modelled in full: the division of two
    integers, which rounds to a double or raises, and the dictionary, which
    keeps its keys in the order of their insertion. *)

From Stdlib Require Import ZArith QArith Qabs String Ascii List.
From stdpp Require Import base option list gmap strings pretty.

Local Open Scope string_scope.
Local Open Scope list_scope.
Local Open Scope Z_scope.

(** ** Python values *)

(** Exceptions.  Everything raised below the tool functions is an instance
    of Python's [Exception]: the two classes the module raises itself, the
    [KeyError] of [del d[k]], the [OverflowError] of a division, and the
    errors of the collaborators (selenium's [WebDriverException] family,
    [OSError], [binascii.Error]), for which the environment gives the text of
    [str(e)]. *)
Inductive exn : Type :=
| Exception (msg : string)
| ValueError (msg : string)
| KeyError (key_repr : string)
| OverflowError (msg : string)
| EngineError (msg : string).

(** [repr] of a key without quote or escape characters, as session ids are. *)
Definition py_repr (s : string) : string := "'" +:+ s +:+ "'".

(** [str(e)] *)
Definition str_exn (e : exn) : string :=
  match e with
  | Exception msg => msg
  | ValueError msg => msg
  | KeyError key_repr => key_repr
  | OverflowError msg => msg
  | EngineError msg => msg
  end.

(** [str.lower].  A string is its sequence of bytes; the letters A-Z are
    lowered and every other byte is kept.  Python also rewrites some
    characters outside ASCII, but never into a name of [locator_map], so the
    lookups below go the same way. *)
Definition lower_ascii (c : ascii) : ascii :=
  let n := nat_of_ascii c in
  if (65 <=? n)%nat && (n <=? 90)%nat then ascii_of_nat (n + 32) else c.

Fixpoint lower (s : string) : string :=
  match s with
  | EmptyString => EmptyString
  | String c s' => String (lower_ascii c) (lower s')
  end.

(** [int / int].  Python divides two integers exactly and rounds the
    quotient once, to the nearest double, ties to the even mantissa; it
    raises [OverflowError] when the rounded quotient lies outside the range
    of a double.  The module only divides by 1000, so the quotient of a
    nonzero integer is at least 1/1000 in size and is never subnormal.  A
    double is given by the rational number it stands for. *)
Definition round_half_even (num den : Z) : Z :=
  let q := num / den in
  match 2 * (num mod den) ?= den with
  | Lt => q
  | Gt => q + 1
  | Eq => if Z.even q then q else q + 1
  end.

(** The [c] with [2^c <= n / 1000 < 2^(c+1)], for [n > 0]. *)
Definition binade_1000 (n : Z) : Z :=
  let c0 := Z.log2 n - 9 in
  if (if 0 <=? c0 then 1000 * 2 ^ c0 <=? n else 1000 <=? n * 2 ^ (- c0))
  then c0 else c0 - 1.

(** Mantissa and exponent of the double nearest to [n / 1000], for [n > 0]:
    53 bits of mantissa, so the last bit weighs [2^(c-52)]. *)
Definition nearest_double_1000 (n : Z) : Z * Z :=
  let e := binade_1000 n - 52 in
  (if 0 <=? e then round_half_even n (1000 * 2 ^ e)
   else round_half_even (n * 2 ^ (- e)) 1000, e).

(** The number [m * 2^e]. *)
Definition float_value (m e : Z) : Q :=
  if 0 <=? e then inject_Z (m * 2 ^ e) else Qmake m (Z.to_pos (2 ^ (- e))).

(** [a / 1000] *)
Definition truediv_1000 (a : Z) : exn + Q :=
  if a =? 0 then inr 0%Q
  else
    let '(m, e) := nearest_double_1000 (Z.abs a) in
    if 2 ^ 1024 <=? m * 2 ^ Z.max e 0 then
      inl (OverflowError "integer division result too large for a float")
    else inr (float_value (Z.sgn a * m) e).

(** ** The engine interface *)

(** Opaque handles given out by the engine. *)
Definition Driver : Type := nat.
Definition Element : Type := nat.

(** [selenium.webdriver.common.by.By] *)
Inductive By : Type := ID | CSS_SELECTOR | XPATH | NAME | TAG_NAME | CLASS_NAME.

(** [expected_conditions] used by the module. *)
Inductive Condition : Type := presence_of_element_located | element_to_be_clickable.

(** Steps queued on an [ActionChains] object. *)
Inductive Action : Type :=
| move_to_element (el : Element)
| drag_and_drop_action (source target : Element)
| double_click_action (el : Element)
| context_click (el : Element)
| key_down (key : string)
| key_up (key : string).

(** A call that leaves the module. *)
Inductive Call : Type :=
| Launch (browser : string) (options : list string)
| TimeMs (t : Z)
| Get (d : Driver) (url : string)
| Until (d : Driver) (timeout_seconds : Q) (cond : Condition) (loc : By) (value : string)
| Click (el : Element)
| Clear (el : Element)
| SendKeys (el : Element) (text : string)
| Text (el : Element)
| Perform (d : Driver) (actions : list Action)
| ScreenshotAsBase64 (d : Driver)
| OpenWb (path : string)
| FileWrite (path : string) (data : string)
| FileClose (path : string)
| DriverQuit (d : Driver)
| PrintLine (line : string).

(** The collaborators.  Each answer may depend on the calls made so far. *)
Record Env : Type := mkEnv {
  (** [webdriver.Chrome(options=...)], [webdriver.Firefox(options=...)];
      [options] lists the [add_argument] calls in order. *)
  env_launch : list Call -> string -> list string -> exn + Driver;
  (** [int(time.time() * 1000)] *)
  env_time_ms : list Call -> Z;
  (** [WebDriverWait(driver, timeout_seconds).until(cond((loc, value)))] *)
  env_until : list Call -> Driver -> Q -> Condition -> By -> string -> exn + Element;
  (** calls without a result: [Get], [Click], [Clear], [SendKeys],
      [Perform], [OpenWb], [FileWrite], [FileClose], [DriverQuit] *)
  env_command : list Call -> Call -> exn + unit;
  (** calls with a text result: [Text], [ScreenshotAsBase64] *)
  env_query : list Call -> Call -> exn + string;
  (** [base64.b64decode] *)
  env_b64decode : string -> exn + string
}.

(** ** Dictionaries *)

(** A Python [dict] from session ids to drivers: the entries, and the keys
    in the order in which they were inserted. *)
Record Dict : Type := mkDict {
  entries : gmap string Driver;
  keys : list string
}.

(** [d[k]] and [k in d] *)
#[global] Instance dict_lookup : Lookup string Driver Dict :=
  fun k d => entries d !! k.

(** [d[k] = v]: a new key goes to the end, a known key keeps its place. *)
#[global] Instance dict_insert : Insert string Driver Dict :=
  fun k v d =>
    mkDict (<[k := v]> (entries d))
           (if bool_decide (k ∈ keys d) then keys d else keys d ++ [k]).

(** [del d[k]] *)
#[global] Instance dict_delete : Delete string Dict :=
  fun k d => mkDict (delete k (entries d)) (filter (fun k' => k' ≠ k) (keys d)).

(** [{}] and [d.clear()] *)
#[global] Instance dict_empty : Empty Dict := mkDict ∅ [].

(** [{k: v}] *)
#[global] Instance dict_singleton : SingletonM string Driver Dict :=
  fun k v => mkDict {[ k := v ]} [k].

(** [len(d)] *)
#[global] Instance dict_size : Size Dict := fun d => size (entries d).

(** [d.items()], in insertion order. *)
Definition dict_items (d : Dict) : list (string * Driver) :=
  omap (fun k => (fun v => (k, v)) <$> entries d !! k) (keys d).

(** What every dictionary satisfies: each key is listed once, and the listed
    keys are those that have an entry. *)
Definition dict_wf (d : Dict) : Prop :=
  NoDup (keys d) ∧ ∀ k, k ∈ keys d <-> is_Some (entries d !! k).

(** ** The world: [state] and the trace of calls *)

Record World : Type := mkWorld {
  drivers : Dict;
  current_session : option string;
  trace : list Call
}.

(** [state = {"drivers": {}, "current_session": None}] *)
Definition initial_world : World := mkWorld ∅ None [].

Definition set_drivers (f : Dict -> Dict) (w : World) : World :=
  mkWorld (f (drivers w)) (current_session w) (trace w).

Definition set_current_session (c : option string) (w : World) : World :=
  mkWorld (drivers w) c (trace w).

Definition record_call (c : Call) (w : World) : World :=
  mkWorld (drivers w) (current_session w) (trace w ++ [c]).

(** The world after further calls that left [state] alone. *)
Definition add_calls (new : list Call) (w : World) : World :=
  mkWorld (drivers w) (current_session w) (trace w ++ new).

(** ** Computations that may raise *)

Inductive Outcome (A : Type) : Type :=
| Ret (a : A)
| Raise (e : exn).
Arguments Ret {A} a.
Arguments Raise {A} e.

Definition M (A : Type) : Type := World -> Outcome A * World.

Definition ret {A} (a : A) : M A := fun w => (Ret a, w).

Definition raise {A} (e : exn) : M A := fun w => (Raise e, w).

Definition bind {A B} (m : M A) (k : A -> M B) : M B :=
  fun w => match m w with
           | (Ret a, w') => k a w'
           | (Raise e, w') => (Raise e, w')
           end.

(** [try: body / except Exception as e: handler e] *)
Definition try_except {A} (body : M A) (handler : exn -> M A) : M A :=
  fun w => match body w with
           | (Ret a, w') => (Ret a, w')
           | (Raise e, w') => handler e w'
           end.

Definition get_world : M World := fun w => (Ret w, w).

Definition modify (f : World -> World) : M unit := fun w => (Ret tt, f w).

Declare Scope py_scope.
Delimit Scope py_scope with py.
Notation "x <- m ;; k" := (bind m (fun x => k))
  (at level 100, m at next level, right associativity) : py_scope.
Notation "m ;;; k" := (bind m (fun _ => k))
  (at level 100, right associativity) : py_scope.
Local Open Scope py_scope.

Fixpoint for_each {A} (l : list A) (f : A -> M unit) : M unit :=
  match l with
  | [] => ret tt
  | x :: l' => f x ;;; for_each l' f
  end.

(** [with ctx: body]: the exit step runs whether or not the body raised. *)
Definition with_exit {A} (body : M A) (exit : M unit) : M A :=
  fun w => match body w with
           | (Ret a, w') => (exit ;;; ret a) w'
           | (Raise e, w') => (exit ;;; raise e) w'
           end.

(** ** The module *)

Module Server.
Section Tools.

Context (E : Env).

(** *** Calls into the collaborators *)

Definition answer {A} (r : exn + A) : Outcome A :=
  match r with
  | inl e => Raise e
  | inr a => Ret a
  end.

Definition webdriver_launch (browser : string) (options : list string) : M Driver :=
  fun w => (answer (env_launch E (trace w) browser options),
            record_call (Launch browser options) w).

Definition time_ms : M Z :=
  fun w => let t := env_time_ms E (trace w) in (Ret t, record_call (TimeMs t) w).

Definition until (driver : Driver) (timeout_seconds : Q) (cond : Condition)
    (loc : By) (value : string) : M Element :=
  fun w => (answer (env_until E (trace w) driver timeout_seconds cond loc value),
            record_call (Until driver timeout_seconds cond loc value) w).

Definition command (c : Call) : M unit :=
  fun w => (answer (env_command E (trace w) c), record_call c w).

Definition query (c : Call) : M string :=
  fun w => (answer (env_query E (trace w) c), record_call c w).

Definition b64decode (s : string) : M string :=
  fun w => (answer (env_b64decode E s), w).

Definition print (line : string) : M unit :=
  fun w => (Ret tt, record_call (PrintLine line) w).

(** *** Registry access *)

Definition get_driver : M Driver :=
  w <- get_world ;;
  match current_session w ≫= (λ sid, drivers w !! sid) with
  | None => raise (Exception "No active browser session")
  | Some driver => ret driver
  end.

Definition generate_session_id (browser : string) : M string :=
  t <- time_ms ;;
  ret (browser +:+ "_" +:+ pretty t).

(** [del state["drivers"][session_id]] *)
Definition del_driver (session_id : option string) : M unit :=
  w <- get_world ;;
  match session_id with
  | None => raise (KeyError "None")
  | Some sid =>
      match drivers w !! sid with
      | None => raise (KeyError (py_repr sid))
      | Some _ => modify (set_drivers (delete sid))
      end
  end.

(** How an f-string renders a value that may be [None]. *)
Definition fmt_opt (o : option string) : string := default "None" o.

(** *** Locators and timeouts *)

Definition locator_map : gmap string By :=
  list_to_map [("id", ID); ("css", CSS_SELECTOR); ("xpath", XPATH);
               ("name", NAME); ("tag", TAG_NAME); ("class", CLASS_NAME)].

Definition get_locator (by_ : string) : M By :=
  match locator_map !! lower by_ with
  | None => raise (ValueError ("Unsupported locator strategy: " +:+ by_))
  | Some loc => ret loc
  end.

(** [timeout: int = 10000] *)
Definition timeout_arg (timeout : option Z) : Z := default 10000 timeout.

(** [timeout_seconds = timeout / 1000] *)
Definition timeout_seconds (timeout : Z) : exn + Q := truediv_1000 timeout.

(** A step that computes a value or raises, without a call. *)
Definition pure {A} (r : exn + A) : M A := fun w => (answer r, w).

(** [WebDriverWait(driver, timeout_seconds).until(cond((get_locator(by), value)))]:
    the locator is resolved while the arguments of [until] are evaluated,
    before the wait starts. *)
Definition wait_for (driver : Driver) (secs : Q) (cond : Condition)
    (by_ value : string) : M Element :=
  loc <- get_locator by_ ;;
  until driver secs cond loc value.

(** *** Tool bodies (the [try] blocks) *)

Definition browser_options (headless_flag : string) (headless : bool)
    (arguments : option (list string)) : list string :=
  (if headless then [headless_flag] else []) ++ default [] arguments.

Definition start_browser_body (browser : string) (headless : bool)
    (arguments : option (list string)) : M string :=
  if negb (bool_decide (browser ∈ ["chrome"; "firefox"])) then
    raise (ValueError "Unsupported browser type. Use 'chrome' or 'firefox'.")
  else
    driver <- (if bool_decide (browser = "chrome") then
                 webdriver_launch browser (browser_options "--headless=new" headless arguments)
               else
                 webdriver_launch browser (browser_options "--headless" headless arguments)) ;;
    session_id <- generate_session_id browser ;;
    modify (set_drivers (insert session_id driver)) ;;;
    modify (set_current_session (Some session_id)) ;;;
    ret ("Browser started with session_id: " +:+ session_id).

Definition navigate_body (url : string) : M string :=
  driver <- get_driver ;;
  command (Get driver url) ;;;
  ret ("Navigated to " +:+ url).

Definition close_session_body : M string :=
  driver <- get_driver ;;
  command (DriverQuit driver) ;;;
  w <- get_world ;;
  let session_id := current_session w in
  del_driver session_id ;;;
  modify (set_current_session None) ;;;
  ret ("Browser session " +:+ fmt_opt session_id +:+ " closed").

Definition locator_text (by_ value : string) : string := by_ +:+ "='" +:+ value +:+ "'".

Definition find_element_body (by_ value : string) (timeout : option Z) : M string :=
  driver <- get_driver ;;
  secs <- pure (timeout_seconds (timeout_arg timeout)) ;;
  element <- wait_for driver secs presence_of_element_located by_ value ;;
  ret ("Element found using " +:+ locator_text by_ value).

Definition click_element_body (by_ value : string) (timeout : option Z) : M string :=
  driver <- get_driver ;;
  secs <- pure (timeout_seconds (timeout_arg timeout)) ;;
  element <- wait_for driver secs element_to_be_clickable by_ value ;;
  command (Click element) ;;;
  ret ("Element clicked using " +:+ locator_text by_ value).

Definition send_keys_body (by_ value text : string) (timeout : option Z) : M string :=
  driver <- get_driver ;;
  secs <- pure (timeout_seconds (timeout_arg timeout)) ;;
  element <- wait_for driver secs presence_of_element_located by_ value ;;
  command (Clear element) ;;;
  command (SendKeys element text) ;;;
  ret ("Text '" +:+ text +:+ "' entered into element using " +:+ locator_text by_ value).

Definition get_element_text_body (by_ value : string) (timeout : option Z) : M string :=
  driver <- get_driver ;;
  secs <- pure (timeout_seconds (timeout_arg timeout)) ;;
  element <- wait_for driver secs presence_of_element_located by_ value ;;
  text <- query (Text element) ;;
  ret ("Text of element using " +:+ locator_text by_ value +:+ ": " +:+ text).

Definition hover_body (by_ value : string) (timeout : option Z) : M string :=
  driver <- get_driver ;;
  secs <- pure (timeout_seconds (timeout_arg timeout)) ;;
  element <- wait_for driver secs presence_of_element_located by_ value ;;
  command (Perform driver [move_to_element element]) ;;;
  ret ("Hovered over element using " +:+ locator_text by_ value).

Definition drag_and_drop_body (by_ value target_by target_value : string)
    (timeout : option Z) : M string :=
  driver <- get_driver ;;
  secs <- pure (timeout_seconds (timeout_arg timeout)) ;;
  source_element <- wait_for driver secs presence_of_element_located by_ value ;;
  target_element <- wait_for driver secs presence_of_element_located target_by target_value ;;
  command (Perform driver [drag_and_drop_action source_element target_element]) ;;;
  ret ("Drag and drop completed from " +:+ locator_text by_ value
       +:+ " to " +:+ locator_text target_by target_value).

Definition double_click_body (by_ value : string) (timeout : option Z) : M string :=
  driver <- get_driver ;;
  secs <- pure (timeout_seconds (timeout_arg timeout)) ;;
  element <- wait_for driver secs presence_of_element_located by_ value ;;
  command (Perform driver [double_click_action element]) ;;;
  ret ("Double click performed on element using " +:+ locator_text by_ value).

Definition right_click_body (by_ value : string) (timeout : option Z) : M string :=
  driver <- get_driver ;;
  secs <- pure (timeout_seconds (timeout_arg timeout)) ;;
  element <- wait_for driver secs presence_of_element_located by_ value ;;
  command (Perform driver [context_click element]) ;;;
  ret ("Right click performed on element using " +:+ locator_text by_ value).

Definition press_key_body (key : string) : M string :=
  driver <- get_driver ;;
  command (Perform driver [key_down key; key_up key]) ;;;
  ret ("Key '" +:+ key +:+ "' pressed").

Definition upload_file_body (by_ value file_path : string) (timeout : option Z) : M string :=
  driver <- get_driver ;;
  secs <- pure (timeout_seconds (timeout_arg timeout)) ;;
  element <- wait_for driver secs presence_of_element_located by_ value ;;
  command (SendKeys element file_path) ;;;
  ret ("File upload initiated using " +:+ locator_text by_ value).

(** [if output_path:] is false for [None] and for the empty string. *)
Definition truthy (o : option string) : option string :=
  match o with
  | Some (String c s) => Some (String c s)
  | _ => None
  end.

Definition take_screenshot_body (output_path : option string) : M string :=
  driver <- get_driver ;;
  screenshot <- query (ScreenshotAsBase64 driver) ;;
  match truthy output_path with
  | Some path =>
      command (OpenWb path) ;;;
      with_exit (data <- b64decode screenshot ;; command (FileWrite path data))
                (command (FileClose path)) ;;;
      ret ("Screenshot saved to " +:+ path)
  | None => ret ("Screenshot captured as base64: " +:+ screenshot)
  end.

(** *** The tools: each body inside [try ... except Exception as e] *)

(** [return f"<label>: {str(e)}"] *)
Definition on_error (label : string) (e : exn) : M string :=
  ret (label +:+ ": " +:+ str_exn e).

Definition start_browser (browser : string) (headless : bool)
    (arguments : option (list string)) : M string :=
  try_except (start_browser_body browser headless arguments)
             (on_error "Error starting browser").

Definition navigate (url : string) : M string :=
  try_except (navigate_body url) (on_error "Error navigating").

(** The module defines [close_session] twice with the same body. *)
Definition close_session : M string :=
  try_except close_session_body (on_error "Error closing session").

Definition find_element (by_ value : string) (timeout : option Z) : M string :=
  try_except (find_element_body by_ value timeout) (on_error "Error finding element").

Definition click_element (by_ value : string) (timeout : option Z) : M string :=
  try_except (click_element_body by_ value timeout) (on_error "Error clicking element").

Definition send_keys (by_ value text : string) (timeout : option Z) : M string :=
  try_except (send_keys_body by_ value text timeout) (on_error "Error entering text").

Definition get_element_text (by_ value : string) (timeout : option Z) : M string :=
  try_except (get_element_text_body by_ value timeout)
             (on_error "Error getting element text").

Definition hover (by_ value : string) (timeout : option Z) : M string :=
  try_except (hover_body by_ value timeout) (on_error "Error hovering over element").

Definition drag_and_drop (by_ value target_by target_value : string)
    (timeout : option Z) : M string :=
  try_except (drag_and_drop_body by_ value target_by target_value timeout)
             (on_error "Error performing drag and drop").

Definition double_click (by_ value : string) (timeout : option Z) : M string :=
  try_except (double_click_body by_ value timeout)
             (on_error "Error performing double click").

Definition right_click (by_ value : string) (timeout : option Z) : M string :=
  try_except (right_click_body by_ value timeout)
             (on_error "Error performing right click").

Definition press_key (key : string) : M string :=
  try_except (press_key_body key) (on_error "Error pressing key").

Definition upload_file (by_ value file_path : string) (timeout : option Z) : M string :=
  try_except (upload_file_body by_ value file_path timeout)
             (on_error "Error uploading file").

Definition take_screenshot (output_path : option string) : M string :=
  try_except (take_screenshot_body output_path) (on_error "Error taking screenshot").

(** *** The sweep at shutdown *)

(** One round of the loop over [state["drivers"].items()]. *)
Definition cleanup_step (item : string * Driver) : M unit :=
  let '(session_id, driver) := item in
  try_except (command (DriverQuit driver))
    (fun e => print ("Error closing browser session " +:+ session_id
                     +:+ ": " +:+ str_exn e)).

Definition cleanup : M unit :=
  w <- get_world ;;
  for_each (dict_items (drivers w)) cleanup_step ;;;
  modify (set_drivers (fun _ => ∅)) ;;;
  modify (set_current_session None).

(** *** The command surface *)

Inductive Op : Type :=
| StartBrowser (browser : string) (headless : bool) (arguments : option (list string))
| Navigate (url : string)
| FindElement (by_ value : string) (timeout : option Z)
| ClickElement (by_ value : string) (timeout : option Z)
| SendKeysTo (by_ value text : string) (timeout : option Z)
| GetElementText (by_ value : string) (timeout : option Z)
| Hover (by_ value : string) (timeout : option Z)
| DragAndDrop (by_ value target_by target_value : string) (timeout : option Z)
| DoubleClick (by_ value : string) (timeout : option Z)
| RightClick (by_ value : string) (timeout : option Z)
| PressKey (key : string)
| UploadFile (by_ value file_path : string) (timeout : option Z)
| TakeScreenshot (output_path : option string)
| CloseSession.

Definition dispatch (op : Op) : M string :=
  match op with
  | StartBrowser browser headless arguments => start_browser browser headless arguments
  | Navigate url => navigate url
  | FindElement by_ value timeout => find_element by_ value timeout
  | ClickElement by_ value timeout => click_element by_ value timeout
  | SendKeysTo by_ value text timeout => send_keys by_ value text timeout
  | GetElementText by_ value timeout => get_element_text by_ value timeout
  | Hover by_ value timeout => hover by_ value timeout
  | DragAndDrop by_ value target_by target_value timeout =>
      drag_and_drop by_ value target_by target_value timeout
  | DoubleClick by_ value timeout => double_click by_ value timeout
  | RightClick by_ value timeout => right_click by_ value timeout
  | PressKey key => press_key key
  | UploadFile by_ value file_path timeout => upload_file by_ value file_path timeout
  | TakeScreenshot output_path => take_screenshot output_path
  | CloseSession => close_session
  end.

(** The [try] block of each tool and the label of its [except] branch. *)
Definition op_body (op : Op) : M string :=
  match op with
  | StartBrowser browser headless arguments => start_browser_body browser headless arguments
  | Navigate url => navigate_body url
  | FindElement by_ value timeout => find_element_body by_ value timeout
  | ClickElement by_ value timeout => click_element_body by_ value timeout
  | SendKeysTo by_ value text timeout => send_keys_body by_ value text timeout
  | GetElementText by_ value timeout => get_element_text_body by_ value timeout
  | Hover by_ value timeout => hover_body by_ value timeout
  | DragAndDrop by_ value target_by target_value timeout =>
      drag_and_drop_body by_ value target_by target_value timeout
  | DoubleClick by_ value timeout => double_click_body by_ value timeout
  | RightClick by_ value timeout => right_click_body by_ value timeout
  | PressKey key => press_key_body key
  | UploadFile by_ value file_path timeout => upload_file_body by_ value file_path timeout
  | TakeScreenshot output_path => take_screenshot_body output_path
  | CloseSession => close_session_body
  end.

Definition op_error_label (op : Op) : string :=
  match op with
  | StartBrowser _ _ _ => "Error starting browser"
  | Navigate _ => "Error navigating"
  | FindElement _ _ _ => "Error finding element"
  | ClickElement _ _ _ => "Error clicking element"
  | SendKeysTo _ _ _ _ => "Error entering text"
  | GetElementText _ _ _ => "Error getting element text"
  | Hover _ _ _ => "Error hovering over element"
  | DragAndDrop _ _ _ _ _ => "Error performing drag and drop"
  | DoubleClick _ _ _ => "Error performing double click"
  | RightClick _ _ _ => "Error performing right click"
  | PressKey _ => "Error pressing key"
  | UploadFile _ _ _ _ => "Error uploading file"
  | TakeScreenshot _ => "Error taking screenshot"
  | CloseSession => "Error closing session"
  end.

(** Worlds reached from the initial one by dispatcher operations. *)
Inductive reachable : World -> Prop :=
| reachable_initial : reachable initial_world
| reachable_step (op : Op) (w : World) :
    reachable w -> reachable (snd (dispatch op w)).

(** Run a list of operations, keeping the results. *)
Fixpoint run (ops : list Op) (w : World) : list (Outcome string) * World :=
  match ops with
  | [] => ([], w)
  | op :: ops' =>
      let '(r, w') := dispatch op w in
      let '(rs, w'') := run ops' w' in
      (r :: rs, w'')
  end.

End Tools.

(** *** Reading the arguments of an operation *)

(** The locator strategies an operation is called with, in the order the
    body resolves them. *)
Definition op_strategies (op : Op) : list string :=
  match op with
  | FindElement by_ _ _ | ClickElement by_ _ _ | SendKeysTo by_ _ _ _
  | GetElementText by_ _ _ | Hover by_ _ _ | DoubleClick by_ _ _
  | RightClick by_ _ _ | UploadFile by_ _ _ _ => [by_]
  | DragAndDrop by_ _ target_by _ _ => [by_; target_by]
  | _ => []
  end.

(** The [timeout] argument of the timed operations. *)
Definition op_timeout (op : Op) : option (option Z) :=
  match op with
  | FindElement _ _ t | ClickElement _ _ t | SendKeysTo _ _ _ t
  | GetElementText _ _ t | Hover _ _ t | DoubleClick _ _ t
  | RightClick _ _ t | UploadFile _ _ _ t | DragAndDrop _ _ _ _ t => Some t
  | _ => None
  end.

Definition supported_strategy (by_ : string) : bool :=
  bool_decide (lower by_ ∈ ["id"; "css"; "xpath"; "name"; "tag"; "class"]).

(** A result that reports a failure starts with "Error". *)
Definition is_failure (s : string) : bool := String.prefix "Error" s.

(** The timeouts of the waits in a trace. *)
Definition wait_timeouts (l : list Call) : list Q :=
  omap (fun c => match c with Until _ secs _ _ _ => Some secs | _ => None end) l.

End Server.

(** ** Sample environments *)

Module Samples.

(** Every call succeeds; the clock advances with every call. *)
Definition steady_env : Env :=
  {| env_launch := fun h _ _ => inr (length h);
     env_time_ms := fun h => 1700000000000 + Z.of_nat (length h);
     env_until := fun _ _ _ _ _ _ => inr 7%nat;
     env_command := fun _ _ => inr tt;
     env_query := fun _ _ => inr "aGVsbG8=";
     env_b64decode := fun s => inr s |}.

(** As [steady_env], with a clock that stays within one millisecond. *)
Definition frozen_clock_env : Env :=
  {| env_launch := fun h _ _ => inr (length h);
     env_time_ms := fun _ => 1700000000000;
     env_until := fun _ _ _ _ _ _ => inr 7%nat;
     env_command := fun _ _ => inr tt;
     env_query := fun _ _ => inr "aGVsbG8=";
     env_b64decode := fun s => inr s |}.

(** As [steady_env], but [quit()] raises on the first driver launched. *)
Definition failing_quit_env : Env :=
  {| env_launch := fun h _ _ => inr (length h);
     env_time_ms := fun h => 1700000000000 + Z.of_nat (length h);
     env_until := fun _ _ _ _ _ _ => inr 7%nat;
     env_command := fun _ c =>
       match c with
       | DriverQuit 0%nat => inl (EngineError "Message: invalid session id")
       | _ => inr tt
       end;
     env_query := fun _ _ => inr "aGVsbG8=";
     env_b64decode := fun s => inr s |}.

(** As [steady_env], but no element is ever found. *)
Definition no_element_env : Env :=
  {| env_launch := fun h _ _ => inr (length h);
     env_time_ms := fun h => 1700000000000 + Z.of_nat (length h);
     env_until := fun _ _ _ _ _ _ => inl (EngineError "Message: ");
     env_command := fun _ _ => inr tt;
     env_query := fun _ _ => inr "aGVsbG8=";
     env_b64decode := fun s => inr s |}.

End Samples.

(** ** Vocabulary of the properties *)

Import Server.

(** [emits P m]: running [m] leaves [state] as it is and makes only calls
    that satisfy [P]. *)
Definition emits (P : Call -> Prop) {A} (m : M A) : Prop :=
  ∀ w, ∃ new, snd (m w) = add_calls new w ∧ Forall P new.

(** The options [start_browser] launches [browser] with. *)
Definition launch_options (browser : string) (headless : bool)
    (arguments : option (list string)) : list string :=
  if bool_decide (browser = "chrome")
  then browser_options "--headless=new" headless arguments
  else browser_options "--headless" headless arguments.

(** The tools that write to [state]. *)
Definition is_registry_op (op : Op) : bool :=
  match op with
  | StartBrowser _ _ _ | CloseSession => true
  | _ => false
  end.

(** A call that, if it is a wait, waits for the seconds that the division
    [r] returned. *)
Definition wait_with (r : exn + Q) (c : Call) : Prop :=
  match c with
  | Until _ q _ _ _ => r = inr q
  | _ => True
  end.

(** The current-session pointer, when set, is a key of the mapping. *)
Definition pointer_valid (w : World) : Prop :=
  ∀ sid, current_session w = Some sid -> is_Some (drivers w !! sid).

(** The resolver as the specification words it: the strategy is compared
    case-insensitively with the six recognised names. *)
Definition native_locator_kind (strategy : string) : option By :=
  let s := lower strategy in
  if String.eqb s "id" then Some ID
  else if String.eqb s "css" then Some CSS_SELECTOR
  else if String.eqb s "xpath" then Some XPATH
  else if String.eqb s "name" then Some NAME
  else if String.eqb s "tag" then Some TAG_NAME
  else if String.eqb s "class" then Some CLASS_NAME
  else None.

(** The calls a locator-taking tool has made when it rejects a strategy:
    none, except that [drag_and_drop] has waited for its source element
    when the timeout could be divided and the source strategy resolves. *)
Definition waits_before_rejection (d : Driver) (op : Op) : list Call :=
  match op with
  | DragAndDrop by_ value _ _ timeout =>
      match timeout_seconds (timeout_arg timeout), native_locator_kind by_ with
      | inr secs, Some loc => [Until d secs presence_of_element_located loc value]
      | _, _ => []
      end
  | _ => []
  end.

(** The text of the exception that ends a tool which is given the
    unsupported strategy [by_] first: the division of the timeout comes
    before the resolver. *)
Definition rejection_text (op : Op) (by_ : string) : string :=
  match timeout_seconds (timeout_arg (default None (op_timeout op))) with
  | inl e => str_exn e
  | inr _ => "Unsupported locator strategy: " +:+ by_
  end.

(** [m], run in [w], leaves [state] alone and makes the call [c] first. *)
Definition starts_with (c : Call) {A} (m : M A) (w : World) : Prop :=
  ∃ rest, snd (m w) = add_calls (c :: rest) w.

(** The line [cleanup] prints when [quit()] raised [e] for session [sid]. *)
Definition sweep_log (sid : string) (e : exn) : Call :=
  PrintLine ("Error closing browser session " +:+ sid +:+ ": " +:+ str_exn e).

(** Among the calls [new] made after the history [h], session [sid] with
    driver [d] is swept: [quit()] is called on [d]; when that call raises,
    the line for [sid] is printed right after it, and otherwise no line
    follows it. *)
Definition swept (E : Env) (h new : list Call) (sid : string) (d : Driver) : Prop :=
  ∃ before after,
    new = before ++ DriverQuit d :: after
    ∧ match env_command E (h ++ before) (DriverQuit d) with
      | inl e => ∃ rest, after = sweep_log sid e :: rest
      | inr _ => ∀ line, head after ≠ Some (PrintLine line)
      end.

(** Every key of the mapping was made by [generate_session_id]: a
    supported browser name, an underscore and a clock reading of the trace. *)
Definition ids_issued (w : World) : Prop :=
  ∀ sid, is_Some (drivers w !! sid) ->
    ∃ browser t, browser ∈ ["chrome"; "firefox"]
                 ∧ sid = browser +:+ "_" +:+ pretty t
                 ∧ TimeMs t ∈ trace w.

(** No driver can be read through the pointer: it is null or stale. *)
Definition no_session (w : World) : Prop :=
  current_session w ≫= (λ sid, drivers w !! sid) = None.

Definition is_start_browser (op : Op) : bool :=
  match op with
  | StartBrowser _ _ _ => true
  | _ => false
  end.

(** The condition a timed tool waits for. *)
Definition op_condition (op : Op) : Condition :=
  match op with
  | ClickElement _ _ _ => element_to_be_clickable
  | _ => presence_of_element_located
  end.

(** The value of the first locator of a tool. *)
Definition op_value (op : Op) : string :=
  match op with
  | FindElement _ v _ | ClickElement _ v _ | SendKeysTo _ v _ _
  | GetElementText _ v _ | Hover _ v _ | DoubleClick _ v _
  | RightClick _ v _ | UploadFile _ v _ _ | DragAndDrop _ v _ _ _ => v
  | _ => ""
  end.

(** What the first wait of a tool found after the history [h]: the
    quotient of the timeout, the locator kind of the strategy, and the
    element that the engine returned. *)
Definition located (E : Env) (h : list Call) (d : Driver) (timeout : option Z)
    (cond : Condition) (by_ value : string) (secs : Q) (loc : By)
    (el : Element) : Prop :=
  timeout_seconds (timeout_arg timeout) = inr secs
  ∧ native_locator_kind by_ = Some loc
  ∧ env_until E h d secs cond loc value = inr el.

(** The calls of a reading tool that returned its success text, when [d]
    is the current driver and [h] the history before the tool: each tool
    makes its own calls, once and in this order, on the current driver and
    on the elements that its waits returned. *)
Definition success_calls (E : Env) (h : list Call) (d : Driver) (op : Op)
    (new : list Call) : Prop :=
  match op with
  | Navigate url => new = [Get d url]
  | FindElement by_ v t =>
      ∃ secs loc el,
        located E h d t presence_of_element_located by_ v secs loc el
        ∧ new = [Until d secs presence_of_element_located loc v]
  | ClickElement by_ v t =>
      ∃ secs loc el,
        located E h d t element_to_be_clickable by_ v secs loc el
        ∧ new = [Until d secs element_to_be_clickable loc v; Click el]
  | SendKeysTo by_ v text t =>
      ∃ secs loc el,
        located E h d t presence_of_element_located by_ v secs loc el
        ∧ new = [Until d secs presence_of_element_located loc v;
                 Clear el; SendKeys el text]
  | GetElementText by_ v t =>
      ∃ secs loc el,
        located E h d t presence_of_element_located by_ v secs loc el
        ∧ new = [Until d secs presence_of_element_located loc v; Text el]
  | Hover by_ v t =>
      ∃ secs loc el,
        located E h d t presence_of_element_located by_ v secs loc el
        ∧ new = [Until d secs presence_of_element_located loc v;
                 Perform d [move_to_element el]]
  | DragAndDrop by_ v target_by target_v t =>
      ∃ secs loc el target_loc target_el,
        located E h d t presence_of_element_located by_ v secs loc el
        ∧ native_locator_kind target_by = Some target_loc
        ∧ env_until E (h ++ [Until d secs presence_of_element_located loc v]) d secs
                    presence_of_element_located target_loc target_v = inr target_el
        ∧ new = [Until d secs presence_of_element_located loc v;
                 Until d secs presence_of_element_located target_loc target_v;
                 Perform d [drag_and_drop_action el target_el]]
  | DoubleClick by_ v t =>
      ∃ secs loc el,
        located E h d t presence_of_element_located by_ v secs loc el
        ∧ new = [Until d secs presence_of_element_located loc v;
                 Perform d [double_click_action el]]
  | RightClick by_ v t =>
      ∃ secs loc el,
        located E h d t presence_of_element_located by_ v secs loc el
        ∧ new = [Until d secs presence_of_element_located loc v;
                 Perform d [context_click el]]
  | PressKey key => new = [Perform d [key_down key; key_up key]]
  | UploadFile by_ v file_path t =>
      ∃ secs loc el,
        located E h d t presence_of_element_located by_ v secs loc el
        ∧ new = [Until d secs presence_of_element_located loc v;
                 SendKeys el file_path]
  | TakeScreenshot output_path =>
      ∃ shot,
        env_query E h (ScreenshotAsBase64 d) = inr shot
        ∧ match truthy output_path with
          | None => new = [ScreenshotAsBase64 d]
          | Some path =>
              ∃ data,
                env_b64decode E shot = inr data
                ∧ new = [ScreenshotAsBase64 d; OpenWb path;
                         FileWrite path data; FileClose path]
          end
  | StartBrowser _ _ _ | CloseSession => False
  end.

(** The drivers that [quit()] was called on, in order. *)
Definition quits (l : list Call) : list Driver :=
  omap (fun c => match c with DriverQuit d => Some d | _ => None end) l.

(** Every text that [m] returns is free of the failure marker. *)
Definition returns_plain (m : M string) : Prop :=
  ∀ w s w', m w = (Ret s, w') -> is_failure s = false.

(** ** Dictionaries *)

Lemma dict_lookup_unfold (d : Dict) (k : string) : d !! k = entries d !! k.
Proof. reflexivity. Qed.

Lemma dict_lookup_insert_eq (d : Dict) (k : string) (v : Driver) :
  <[k := v]> d !! k = Some v.
Proof. rewrite dict_lookup_unfold. apply lookup_insert_eq. Qed.

Lemma dict_lookup_insert_ne (d : Dict) (k k' : string) (v : Driver) :
  k ≠ k' -> <[k := v]> d !! k' = d !! k'.
Proof. intros Hne. rewrite !dict_lookup_unfold. by apply lookup_insert_ne. Qed.

Lemma dict_lookup_delete_eq (d : Dict) (k : string) : delete k d !! k = None.
Proof. rewrite dict_lookup_unfold. apply lookup_delete_eq. Qed.

Lemma dict_lookup_delete_ne (d : Dict) (k k' : string) :
  k ≠ k' -> delete k d !! k' = d !! k'.
Proof. intros Hne. rewrite !dict_lookup_unfold. by apply lookup_delete_ne. Qed.

Lemma dict_lookup_empty (k : string) : (∅ : Dict) !! k = None.
Proof. rewrite dict_lookup_unfold. apply lookup_empty. Qed.

Lemma dict_delete_insert_empty (k : string) (v : Driver) :
  delete k (<[k := v]> (∅ : Dict)) = ∅.
Proof.
  unfold delete, dict_delete, insert, dict_insert, empty, dict_empty; cbn.
  rewrite bool_decide_eq_false_2 by apply not_elem_of_nil.
  rewrite filter_cons_False by (intros Hk; by apply Hk).
  f_equal. rewrite delete_insert_eq. apply delete_empty.
Qed.

Lemma dict_size_insert_None (d : Dict) (k : string) (v : Driver) :
  d !! k = None -> size (<[k := v]> d) = S (size d).
Proof. apply map_size_insert_None. Qed.

Lemma dict_size_delete (d : Dict) (k : string) (v : Driver) :
  d !! k = Some v -> S (size (delete k d)) = size d.
Proof.
  intros Hk. unfold size, dict_size, delete at 1, dict_delete; cbn [entries].
  rewrite <- (insert_delete_id (entries d) k v Hk) at 2.
  rewrite map_size_insert_None; [done | apply lookup_delete_eq].
Qed.

Lemma dict_wf_empty : dict_wf ∅.
Proof.
  split; [constructor|]. intros k. cbn. rewrite lookup_empty, elem_of_nil.
  split; [done | by intros [? ?]].
Qed.

Lemma dict_wf_insert (d : Dict) (k : string) (v : Driver) :
  dict_wf d -> dict_wf (<[k := v]> d).
Proof.
  intros [Hnodup Hkeys]. unfold insert, dict_insert, dict_wf; cbn [entries keys].
  case_bool_decide as Hk.
  - split; [done|]. intros k'. rewrite Hkeys.
    destruct (decide (k = k')) as [<-|Hne].
    + rewrite lookup_insert_eq. split; [eauto | by intros _; apply Hkeys].
    + by rewrite lookup_insert_ne.
  - split.
    + apply NoDup_app. split; [done|]. split; [|apply NoDup_singleton].
      intros k' Hk' ->%list_elem_of_singleton. done.
    + intros k'. rewrite elem_of_app, list_elem_of_singleton, Hkeys.
      destruct (decide (k = k')) as [<-|Hne].
      * rewrite lookup_insert_eq. split; eauto.
      * rewrite lookup_insert_ne by done. split; [intros [?| ->]; done | eauto].
Qed.

Lemma dict_wf_delete (d : Dict) (k : string) : dict_wf d -> dict_wf (delete k d).
Proof.
  intros [Hnodup Hkeys]. unfold dict_wf, delete, dict_delete; cbn [entries keys].
  split; [by apply NoDup_filter|].
  intros k'. rewrite list_elem_of_filter, Hkeys.
  destruct (decide (k = k')) as [<-|Hne].
  - rewrite lookup_delete_eq. split; [by intros [? _] | by intros [? ?]].
  - rewrite lookup_delete_ne by done. split; [by intros [_ ?] | done].
Qed.

Lemma elem_of_dict_items (d : Dict) (k : string) (v : Driver) :
  (k, v) ∈ dict_items d <-> k ∈ keys d ∧ d !! k = Some v.
Proof.
  unfold dict_items. rewrite list_elem_of_omap. split.
  - intros (k' & Hk' & Hv). rewrite dict_lookup_unfold.
    destruct (entries d !! k') as [v'|] eqn:Hlook; [|discriminate].
    by injection Hv as -> ->.
  - intros [Hk Hv]. exists k. split; [done|].
    rewrite dict_lookup_unfold in Hv. by rewrite Hv.
Qed.

Lemma dict_items_keys (d : Dict) : dict_wf d -> (dict_items d).*1 = keys d.
Proof.
  intros [_ Hkeys]. unfold dict_items.
  assert (∀ k, k ∈ keys d -> is_Some (entries d !! k)) as Hall
    by (intros k; apply Hkeys).
  clear Hkeys. induction (keys d) as [|k l IH]; [done|].
  cbn [omap list_omap]. destruct (Hall k) as [v Hv]; [by left|].
  rewrite Hv. cbn. f_equal. apply IH. intros k' Hk'. apply Hall. by right.
Qed.

(** The items of a dictionary are its entries, each once. *)
Lemma dict_items_perm (d : Dict) :
  dict_wf d -> dict_items d ≡ₚ map_to_list (entries d).
Proof.
  intros Hwf. apply NoDup_Permutation.
  - apply (NoDup_fmap_1 fst). rewrite (dict_items_keys d Hwf). apply Hwf.
  - apply NoDup_map_to_list.
  - intros [k v]. rewrite elem_of_dict_items, elem_of_map_to_list, dict_lookup_unfold.
    destruct Hwf as [_ Hkeys]. split; [by intros [_ ?]|].
    intros Hv. split; [|done]. apply Hkeys. eauto.
Qed.

Lemma dict_lookup_insert (d : Dict) (k k' : string) (v : Driver) :
  <[k := v]> d !! k' = if decide (k = k') then Some v else d !! k'.
Proof. rewrite !dict_lookup_unfold. apply lookup_insert. Qed.

Lemma dict_lookup_delete_Some (d : Dict) (k k' : string) (v : Driver) :
  delete k d !! k' = Some v <-> k ≠ k' ∧ d !! k' = Some v.
Proof. rewrite !dict_lookup_unfold. apply lookup_delete_Some. Qed.

(** ** Framing: what a computation does to the world *)

Lemma add_calls_nil w : add_calls [] w = w.
Proof. destruct w as [ds cur tr]. unfold add_calls; simpl. by rewrite app_nil_r. Qed.

Lemma add_calls_app n1 n2 w : add_calls n2 (add_calls n1 w) = add_calls (n1 ++ n2) w.
Proof. unfold add_calls; simpl. by rewrite app_assoc. Qed.

Lemma record_call_add_calls c w : record_call c w = add_calls [c] w.
Proof. reflexivity. Qed.

Section Frame.

Context (E : Env) (P : Call -> Prop).

Lemma emits_ret {A} (a : A) : emits P (ret a).
Proof. intros w. exists []. by rewrite add_calls_nil. Qed.

Lemma emits_raise {A} (e : exn) : emits P (@raise A e).
Proof. intros w. exists []. by rewrite add_calls_nil. Qed.

Lemma emits_get_world : emits P get_world.
Proof. intros w. exists []. by rewrite add_calls_nil. Qed.

Lemma emits_bind {A B} (m : M A) (k : A -> M B) :
  emits P m -> (∀ a, emits P (k a)) -> emits P (bind m k).
Proof.
  intros Hm Hk w. unfold bind.
  destruct (Hm w) as (n1 & Hw & HP).
  destruct (m w) as [[a|e] w1]; simpl in Hw; subst w1.
  - destruct (Hk a (add_calls n1 w)) as (n2 & Hw2 & HP2).
    exists (n1 ++ n2). rewrite Hw2, add_calls_app. split; [done | by apply Forall_app].
  - by exists n1.
Qed.

Lemma emits_try_except {A} (body : M A) (handler : exn -> M A) :
  emits P body -> (∀ e, emits P (handler e)) -> emits P (try_except body handler).
Proof.
  intros Hm Hk w. unfold try_except.
  destruct (Hm w) as (n1 & Hw & HP).
  destruct (body w) as [[a|e] w1]; simpl in Hw; subst w1.
  - by exists n1.
  - destruct (Hk e (add_calls n1 w)) as (n2 & Hw2 & HP2).
    exists (n1 ++ n2). rewrite Hw2, add_calls_app. split; [done | by apply Forall_app].
Qed.

Lemma emits_with_exit {A} (body : M A) (exit : M unit) :
  emits P body -> emits P exit -> emits P (with_exit body exit).
Proof.
  intros Hm Hx w. unfold with_exit.
  destruct (Hm w) as (n1 & Hw & HP).
  destruct (body w) as [[a|e] w1]; simpl in Hw; subst w1.
  - destruct (emits_bind exit (fun _ => ret a) Hx (fun _ => emits_ret a) (add_calls n1 w))
      as (n2 & Hw2 & HP2).
    exists (n1 ++ n2). rewrite Hw2, add_calls_app. split; [done | by apply Forall_app].
  - destruct (emits_bind exit (fun _ => @raise A e) Hx (fun _ => emits_raise e) (add_calls n1 w))
      as (n2 & Hw2 & HP2).
    exists (n1 ++ n2). rewrite Hw2, add_calls_app. split; [done | by apply Forall_app].
Qed.

Lemma emits_pure_bind {A B} (r : exn + A) (k : A -> M B) :
  (∀ a, r = inr a -> emits P (k a)) -> emits P (bind (pure r) k).
Proof.
  intros Hk w. unfold bind, pure. destruct r as [e|a]; cbn [answer].
  - exists []. by rewrite add_calls_nil.
  - by apply Hk.
Qed.

Lemma emits_on_error label e : emits P (on_error label e).
Proof. apply emits_ret. Qed.

Lemma emits_command c : P c -> emits P (command E c).
Proof. intros Hc w. exists [c]. split; [done | by constructor]. Qed.

Lemma emits_query c : P c -> emits P (query E c).
Proof. intros Hc w. exists [c]. split; [done | by constructor]. Qed.

Lemma emits_print line : P (PrintLine line) -> emits P (print line).
Proof. intros Hc w. exists [PrintLine line]. split; [done | by constructor]. Qed.

Lemma emits_until d secs cond loc value :
  P (Until d secs cond loc value) -> emits P (until E d secs cond loc value).
Proof. intros Hc w. exists [Until d secs cond loc value]. split; [done | by constructor]. Qed.

Lemma emits_b64decode s : emits P (b64decode E s).
Proof. intros w. exists []. by rewrite add_calls_nil. Qed.

Lemma emits_get_driver : emits P get_driver.
Proof.
  apply emits_bind; [apply emits_get_world | intros w].
  destruct (_ ≫= _); [apply emits_ret | apply emits_raise].
Qed.

Lemma emits_get_locator by_ : emits P (get_locator by_).
Proof. unfold get_locator. destruct (_ !! _); [apply emits_ret | apply emits_raise]. Qed.

Lemma emits_wait_for d secs cond by_ value :
  (∀ loc, P (Until d secs cond loc value)) -> emits P (wait_for E d secs cond by_ value).
Proof.
  intros HP. apply emits_bind; [apply emits_get_locator | intros loc].
  by apply emits_until.
Qed.

End Frame.

(** Solve [emits P m] for a tool body by following its structure. *)
Ltac emits_step :=
  first [ apply emits_get_driver | apply emits_get_locator | apply emits_b64decode
        | apply emits_on_error | apply emits_ret | apply emits_raise
        | apply emits_wait_for; intros ?
        | apply emits_command | apply emits_query | apply emits_until
        | apply emits_with_exit
        | apply emits_try_except; [ | intros ? ]
        | apply emits_pure_bind; intros ? ?
        | apply emits_bind; [ | intros ? ] ].

(** ** Shape of the tools *)

Lemma dispatch_try_except (E : Env) (op : Op) :
  dispatch E op = try_except (op_body E op) (on_error (op_error_label op)).
Proof. by destruct op. Qed.

Lemma error_label_is_failure (op : Op) (msg : string) :
  is_failure (op_error_label op +:+ ": " +:+ msg) = true.
Proof. by destruct op. Qed.

Lemma get_driver_Some (w : World) (sid : string) (d : Driver) :
  current_session w = Some sid -> drivers w !! sid = Some d ->
  get_driver w = (Ret d, w).
Proof.
  intros Hcur Hd. unfold get_driver, bind, get_world.
  rewrite Hcur; simpl. by rewrite Hd.
Qed.

Lemma get_driver_None (w : World) :
  current_session w = None ->
  get_driver w = (Raise (Exception "No active browser session"), w).
Proof. intros Hcur. unfold get_driver, bind, get_world. by rewrite Hcur. Qed.

Lemma get_driver_inv (w w' : World) (d : Driver) :
  get_driver w = (Ret d, w') ->
  w' = w ∧ ∃ sid, current_session w = Some sid ∧ drivers w !! sid = Some d.
Proof.
  unfold get_driver, bind, get_world.
  destruct (current_session w) as [sid|] eqn:Hcur; simpl; [|discriminate].
  destruct (drivers w !! sid) as [d'|] eqn:Hd; simpl; [|discriminate].
  intros [= -> ->]. eauto.
Qed.

Lemma get_driver_no_session (w : World) :
  no_session w ->
  get_driver w = (Raise (Exception "No active browser session"), w).
Proof. intros Hno. unfold get_driver, bind, get_world. by rewrite Hno. Qed.

Lemma bind_get_driver_raise {A} (k : Driver -> M A) (w : World) (e : exn) :
  get_driver w = (Raise e, w) -> bind get_driver k w = (Raise e, w).
Proof. intros Hdrv. unfold bind. by rewrite Hdrv. Qed.

Lemma bind_get_driver_ret {A} (k : Driver -> M A) (w : World) (d : Driver) :
  get_driver w = (Ret d, w) -> bind get_driver k w = k d w.
Proof. intros Hdrv. unfold bind. by rewrite Hdrv. Qed.

Lemma op_body_no_session (E : Env) (op : Op) (w : World) :
  is_start_browser op = false ->
  no_session w ->
  op_body E op w = (Raise (Exception "No active browser session"), w).
Proof.
  intros Hop Hno%get_driver_no_session.
  destruct op; try discriminate Hop; cbn [op_body];
    by apply bind_get_driver_raise.
Qed.

Lemma dispatch_no_session (E : Env) (op : Op) (w : World) :
  is_start_browser op = false ->
  no_session w ->
  dispatch E op w = (Ret (op_error_label op +:+ ": No active browser session"), w).
Proof.
  intros Hop Hno. rewrite dispatch_try_except. unfold try_except.
  by rewrite (op_body_no_session E op w Hop Hno).
Qed.

(** ** C1: every tool returns text *)


(** ** C3: unsupported browser names *)

Lemma unsupported_browser_guard (browser : string) :
  browser ≠ "chrome" -> browser ≠ "firefox" ->
  bool_decide (browser ∈ ["chrome"; "firefox"]) = false.
Proof.
  intros Hc Hf. apply bool_decide_eq_false.
  rewrite !elem_of_cons, elem_of_nil. tauto.
Qed.

(** C3.  For a browser name other than "chrome" and "firefox",
    [start_browser] returns the failure text of the validation and leaves
    the world as it was: no launch (the trace is unchanged), no new entry
    in the mapping, the same current-session pointer. *)
Theorem start_browser_unsupported (E : Env) (browser : string) (headless : bool)
    (arguments : option (list string)) (w : World) :
  browser ≠ "chrome" -> browser ≠ "firefox" ->
  ∃ s w',
    start_browser E browser headless arguments w = (Ret s, w')
    ∧ s = "Error starting browser: Unsupported browser type. Use 'chrome' or 'firefox'."
    ∧ is_failure s = true
    ∧ trace w' = trace w
    ∧ drivers w' = drivers w
    ∧ current_session w' = current_session w.
Proof.
  intros Hc Hf. unfold start_browser, try_except, start_browser_body.
  rewrite (unsupported_browser_guard _ Hc Hf); simpl.
  by eexists _, _.
Qed.

Lemma start_browser_unsupported_witness :
  ∃ s w',
    start_browser Samples.steady_env "Chrome" true None initial_world = (Ret s, w')
    ∧ s = "Error starting browser: Unsupported browser type. Use 'chrome' or 'firefox'."
    ∧ is_failure s = true
    ∧ trace w' = trace initial_world
    ∧ drivers w' = drivers initial_world
    ∧ current_session w' = current_session initial_world.
Proof. apply start_browser_unsupported; discriminate. Defined.

(** ** The two tools that change the registry *)

(** [start_browser] in full: the validation, a failed launch, a
    registered session. *)
Lemma start_browser_unfold (E : Env) (browser : string) (headless : bool)
    (arguments : option (list string)) (w : World) :
  start_browser E browser headless arguments w =
  if bool_decide (browser ∈ ["chrome"; "firefox"]) then
    let opts := launch_options browser headless arguments in
    match env_launch E (trace w) browser opts with
    | inl e => (Ret ("Error starting browser: " +:+ str_exn e),
                record_call (Launch browser opts) w)
    | inr d =>
        let t := env_time_ms E (trace w ++ [Launch browser opts]) in
        let sid := browser +:+ "_" +:+ pretty t in
        (Ret ("Browser started with session_id: " +:+ sid),
         mkWorld (<[sid := d]> (drivers w)) (Some sid)
                 (trace w ++ [Launch browser opts; TimeMs t]))
    end
  else
    (Ret "Error starting browser: Unsupported browser type. Use 'chrome' or 'firefox'.", w).
Proof.
  unfold start_browser, try_except, start_browser_body, launch_options.
  destruct (bool_decide (browser ∈ _)); simpl; [|done].
  unfold bind, webdriver_launch, generate_session_id, time_ms, bind.
  destruct (bool_decide (browser = "chrome")); simpl;
    destruct (env_launch E _ _ _) as [e|d]; simpl; try done;
    unfold set_drivers, set_current_session; simpl;
    by rewrite <- app_assoc.
Qed.

Lemma close_session_body_unfold (E : Env) (w : World) :
  close_session_body E w =
  match current_session w with
  | None => (Raise (Exception "No active browser session"), w)
  | Some sid =>
      match drivers w !! sid with
      | None => (Raise (Exception "No active browser session"), w)
      | Some d =>
          match env_command E (trace w) (DriverQuit d) with
          | inl e => (Raise e, record_call (DriverQuit d) w)
          | inr _ =>
              (Ret ("Browser session " +:+ sid +:+ " closed"),
               mkWorld (delete sid (drivers w)) None (trace w ++ [DriverQuit d]))
          end
      end
  end.
Proof.
  unfold close_session_body, bind at 1.
  destruct (current_session w) as [sid|] eqn:Hcur.
  - destruct (drivers w !! sid) as [d|] eqn:Hd.
    + rewrite (get_driver_Some w sid d Hcur Hd).
      unfold bind, command. destruct (env_command E _ _) as [e|[]]; simpl; [done|].
      rewrite Hcur; simpl. unfold del_driver, bind, get_world; simpl. by rewrite Hd.
    + unfold get_driver, bind, get_world. rewrite Hcur; simpl. by rewrite Hd.
  - by rewrite (get_driver_None w Hcur).
Qed.

(** ** C10: a failing [quit()] during [close_session] *)

(** C10.  When [close_session] finds a current session and the engine's
    [quit()] raises [e], the tool returns "Error closing session: " followed
    by [str(e)], and the registry is as before: the session is still in the
    mapping under its id and is still the current session. *)
Theorem close_session_quit_raises (E : Env) (w : World) (sid : string)
    (d : Driver) (e : exn) :
  current_session w = Some sid ->
  drivers w !! sid = Some d ->
  env_command E (trace w) (DriverQuit d) = inl e ->
  ∃ s w',
    close_session E w = (Ret s, w')
    ∧ s = "Error closing session: " +:+ str_exn e
    ∧ is_failure s = true
    ∧ drivers w' = drivers w
    ∧ current_session w' = Some sid
    ∧ drivers w' !! sid = Some d.
Proof.
  intros Hcur Hd Hquit. unfold close_session, try_except.
  rewrite close_session_body_unfold, Hcur, Hd, Hquit.
  by eexists _, _.
Qed.

Lemma close_session_quit_raises_witness :
  ∃ s w',
    close_session Samples.failing_quit_env
      (mkWorld {[ "chrome_1700000000001" := 0%nat ]} (Some "chrome_1700000000001") []) = (Ret s, w')
    ∧ s = "Error closing session: " +:+ str_exn (EngineError "Message: invalid session id")
    ∧ is_failure s = true
    ∧ drivers w' = {[ "chrome_1700000000001" := 0%nat ]}
    ∧ current_session w' = Some "chrome_1700000000001"
    ∧ drivers w' !! "chrome_1700000000001" = Some 0%nat.
Proof.
  refine (close_session_quit_raises Samples.failing_quit_env
            (mkWorld {[ "chrome_1700000000001" := 0%nat ]} (Some "chrome_1700000000001") [])
            "chrome_1700000000001" 0%nat (EngineError "Message: invalid session id") _ _ _);
    reflexivity.
Defined.

(** ** C7: closing twice *)

(** C7.  If [close_session] succeeds and leaves the mapping empty, then a
    second [close_session] right after it returns the failure text that
    cites the missing session, makes no engine call, and leaves the mapping
    empty and the pointer null. *)
Theorem close_session_twice (E : Env) (w w1 : World) (s : string) :
  close_session_body E w = (Ret s, w1) ->
  drivers w1 = ∅ ->
  close_session E w = (Ret s, w1)
  ∧ close_session E w1 = (Ret "Error closing session: No active browser session", w1)
  ∧ is_failure "Error closing session: No active browser session" = true
  ∧ drivers w1 = ∅
  ∧ current_session w1 = None.
Proof.
  intros Hfirst Hempty.
  assert (current_session w1 = None) as Hcur.
  { rewrite close_session_body_unfold in Hfirst.
    destruct (current_session w) as [sid|]; [|discriminate].
    destruct (drivers w !! sid) as [d|]; [|discriminate].
    destruct (env_command E _ _) as [e|u]; [discriminate|].
    by injection Hfirst as _ <-. }
  repeat split; try done.
  - unfold close_session, try_except. by rewrite Hfirst.
  - unfold close_session, try_except.
    by rewrite close_session_body_unfold, Hcur.
Qed.

Lemma close_session_twice_witness :
  let w := mkWorld {[ "firefox_5" := 3%nat ]} (Some "firefox_5") [] in
  let w1 := mkWorld ∅ None [DriverQuit 3%nat] in
  close_session Samples.steady_env w = (Ret "Browser session firefox_5 closed", w1)
  ∧ close_session Samples.steady_env w1
    = (Ret "Error closing session: No active browser session", w1)
  ∧ is_failure "Error closing session: No active browser session" = true
  ∧ drivers w1 = ∅
  ∧ current_session w1 = None.
Proof.
  refine (close_session_twice Samples.steady_env
            (mkWorld {[ "firefox_5" := 3%nat ]} (Some "firefox_5") [])
            (mkWorld ∅ None [DriverQuit 3%nat]) "Browser session firefox_5 closed" _ _);
    vm_compute; reflexivity.
Defined.

(** ** C6: start, then close *)

(** C6.  From an empty registry, [start_browser("chrome")] whose launch
    succeeds, followed at once by [close_session()] whose [quit()] succeeds,
    ends with an empty mapping and a null pointer; both tools report
    success. *)
Theorem start_then_close (E : Env) (headless : bool)
    (arguments : option (list string)) (w : World) (d : Driver) :
  drivers w = ∅ ->
  current_session w = None ->
  let opts := browser_options "--headless=new" headless arguments in
  let t := env_time_ms E (trace w ++ [Launch "chrome" opts]) in
  env_launch E (trace w) "chrome" opts = inr d ->
  env_command E (trace w ++ [Launch "chrome" opts; TimeMs t]) (DriverQuit d) = inr tt ->
  let r1 := start_browser E "chrome" headless arguments w in
  let r2 := close_session E (snd r1) in
  fst r1 = Ret ("Browser started with session_id: chrome_" +:+ pretty t)
  ∧ fst r2 = Ret ("Browser session chrome_" +:+ pretty t +:+ " closed")
  ∧ drivers (snd r2) = ∅
  ∧ current_session (snd r2) = None.
Proof.
  intros Hempty Hnone opts t Hlaunch Hquit r1 r2. subst r1 r2.
  rewrite start_browser_unfold.
  change (bool_decide ("chrome" ∈ ["chrome"; "firefox"])) with true.
  change (launch_options "chrome" headless arguments) with opts.
  cbv zeta. rewrite Hlaunch. fold t. cbn [fst snd].
  unfold close_session, try_except.
  rewrite close_session_body_unfold. cbn [current_session drivers trace].
  rewrite dict_lookup_insert_eq, Hquit. cbn [fst snd drivers current_session].
  repeat split; try done.
  rewrite Hempty. apply dict_delete_insert_empty.
Qed.

Lemma start_then_close_witness :
  let r1 := start_browser Samples.steady_env "chrome" true None initial_world in
  let r2 := close_session Samples.steady_env (snd r1) in
  fst r1 = Ret "Browser started with session_id: chrome_1700000000001"
  ∧ fst r2 = Ret "Browser session chrome_1700000000001 closed"
  ∧ drivers (snd r2) = ∅
  ∧ current_session (snd r2) = None.
Proof.
  refine (start_then_close Samples.steady_env true None initial_world 0%nat _ _ _ _);
    reflexivity.
Defined.

(** ** The tools that only read the registry *)

Lemma emits_weaken (P Q : Call -> Prop) {A} (m : M A) :
  (∀ c, P c -> Q c) -> emits P m -> emits Q m.
Proof.
  intros HPQ Hm w. destruct (Hm w) as (new & Hw & HP).
  exists new. split; [done|]. eapply Forall_impl; eauto.
Qed.

(** Apart from [start_browser] and [close_session], a tool leaves [state]
    alone, and each wait it makes lasts the tool's timeout in seconds. *)
Lemma dispatch_emits (E : Env) (op : Op) :
  is_registry_op op = false ->
  emits (wait_with (timeout_seconds (timeout_arg (default None (op_timeout op)))))
        (dispatch E op).
Proof.
  intros Hop. destruct op; try discriminate Hop; simpl;
    (apply emits_try_except; [ | intros ?; apply emits_on_error ]).
  all: try (repeat emits_step; done).
  unfold take_screenshot_body.
  apply emits_bind; [apply emits_get_driver | intros d].
  apply emits_bind; [by apply emits_query | intros s].
  destruct (truthy output_path); repeat emits_step; done.
Qed.

Lemma dispatch_keeps_state (E : Env) (op : Op) (w : World) :
  is_registry_op op = false ->
  ∃ new, snd (dispatch E op w) = add_calls new w.
Proof.
  intros Hop. destruct (dispatch_emits E op Hop w) as (new & Hw & _). eauto.
Qed.

(** ** C2: the current-session pointer *)

Lemma dispatch_pointer_valid (E : Env) (op : Op) (w : World) :
  pointer_valid w -> pointer_valid (snd (dispatch E op w)).
Proof.
  intros Hw. destruct (is_registry_op op) eqn:Hop.
  - destruct op; try discriminate Hop; simpl.
    + rewrite start_browser_unfold.
      destruct (bool_decide _); [|done]. cbv zeta.
      destruct (env_launch E _ _ _) as [e|d]; [done|].
      intros sid [= <-]. simpl. rewrite dict_lookup_insert_eq. eauto.
    + unfold close_session, try_except. rewrite close_session_body_unfold.
      destruct (current_session w) as [sid|] eqn:Hcur; [|done].
      destruct (drivers w !! sid) as [d|] eqn:Hd; [|done].
      destruct (env_command E _ _) as [e|u]; simpl.
      * unfold on_error, ret; simpl. intros sid'. simpl. apply Hw.
      * intros sid'. simpl. discriminate.
  - destruct (dispatch_keeps_state E op w Hop) as (new & ->). exact Hw.
Qed.

Lemma reachable_pointer_valid (E : Env) (w : World) :
  reachable E w -> pointer_valid w.
Proof.
  induction 1 as [|op w Hw IH].
  - intros sid. discriminate.
  - by apply dispatch_pointer_valid.
Qed.

Lemma run_reachable (E : Env) (ops : list Op) (w : World) :
  reachable E w -> reachable E (snd (run E ops w)).
Proof.
  revert w. induction ops as [|op ops IH]; intros w Hw; simpl; [done|].
  pose proof (reachable_step E op w Hw) as Hstep.
  destruct (dispatch E op w) as [r w']. simpl in Hstep.
  specialize (IH w' Hstep). destruct (run E ops w') as [rs w'']. exact IH.
Qed.

(** C2.  After any sequence of dispatcher operations from the initial empty
    registry, a non-null current-session pointer is a key of the session
    mapping, and [get_driver] returns the driver stored under it. *)
Theorem current_session_registered (E : Env) (ops : list Op) (sid : string) :
  let w := snd (run E ops initial_world) in
  current_session w = Some sid ->
  ∃ d, drivers w !! sid = Some d ∧ get_driver w = (Ret d, w).
Proof.
  intros w Hcur.
  pose proof (reachable_pointer_valid E w
                (run_reachable E ops initial_world (reachable_initial E))) as Hvalid.
  destruct (Hvalid sid Hcur) as [d Hd].
  exists d. split; [done|]. by apply get_driver_Some with sid.
Qed.

Lemma current_session_registered_witness :
  let w := snd (run Samples.failing_quit_env
                  [StartBrowser "chrome" true None; CloseSession;
                   StartBrowser "firefox" false None; Navigate "about:blank"]
                  initial_world) in
  current_session w = Some "firefox_1700000000004"
  ∧ ∃ d, drivers w !! "firefox_1700000000004" = Some d ∧ get_driver w = (Ret d, w).
Proof.
  split; [reflexivity|].
  refine (current_session_registered Samples.failing_quit_env
            [StartBrowser "chrome" true None; CloseSession;
             StartBrowser "firefox" false None; Navigate "about:blank"]
            "firefox_1700000000004" _).
  reflexivity.
Defined.

(** ** C5: the sweep *)

Lemma cleanup_step_unfold (E : Env) (sid : string) (d : Driver) (w : World) :
  cleanup_step E (sid, d) w =
  (Ret tt,
   add_calls (DriverQuit d ::
              match env_command E (trace w) (DriverQuit d) with
              | inl e => [PrintLine ("Error closing browser session " +:+ sid
                                 +:+ ": " +:+ str_exn e)]
              | inr _ => []
              end) w).
Proof.
  unfold cleanup_step, try_except, command, print.
  destruct (env_command E _ _) as [e|[]]; simpl; [|done].
  unfold record_call, add_calls; simpl. by rewrite <- app_assoc.
Qed.

Lemma sweep_spec (E : Env) (l : list (string * Driver)) (w : World) :
  ∃ new, for_each l (cleanup_step E) w = (Ret tt, add_calls new w)
         ∧ (∀ sid d, (sid, d) ∈ l -> swept E (trace w) new sid d)
         ∧ (∀ line, head new ≠ Some (PrintLine line)).
Proof.
  revert w. induction l as [|[sid d] l IH]; intros w; cbn [for_each].
  - exists []. rewrite add_calls_nil. split; [done|]. split; [|done].
    intros ?? H. by apply elem_of_nil in H.
  - unfold bind at 1. rewrite cleanup_step_unfold.
    set (log := match env_command E (trace w) (DriverQuit d) with
                | inl e => [PrintLine ("Error closing browser session " +:+ sid
                                       +:+ ": " +:+ str_exn e)]
                | inr _ => []
                end).
    destruct (IH (add_calls (DriverQuit d :: log) w)) as (new & -> & Hall & Hhead).
    exists ((DriverQuit d :: log) ++ new). rewrite add_calls_app.
    split; [done|]. split; [|done].
    intros sid' d' [[= -> ->]|Hin]%elem_of_cons.
    + exists [], (log ++ new). split; [done|]. rewrite app_nil_r. subst log.
      destruct (env_command E (trace w) (DriverQuit d)) as [e|u]; [by eexists | exact Hhead].
    + destruct (Hall sid' d' Hin) as (before & after & -> & Hlog).
      exists ((DriverQuit d :: log) ++ before), after.
      split; [by rewrite <- app_assoc|].
      cbn [add_calls trace] in Hlog. by rewrite app_assoc.
Qed.

(** C5.  On every registry state, [cleanup] returns without raising and ends
    with an empty mapping and a null pointer, whatever the [quit()] calls
    do.  It calls [quit()] on the driver of every registered session; a
    [quit()] that raises is answered by one printed line that names the
    session and the error, right after the call, and the sweep goes on to
    the sessions that remain. *)
Theorem cleanup_empties_registry (E : Env) (w : World) :
  ∃ new,
    cleanup E w = (Ret tt, mkWorld ∅ None (trace w ++ new))
    ∧ (dict_wf (drivers w) ->
       ∀ sid d, drivers w !! sid = Some d -> swept E (trace w) new sid d).
Proof.
  destruct (sweep_spec E (dict_items (drivers w)) w) as (new & Hrun & Hall & _).
  exists new. split.
  - unfold cleanup, bind at 1, get_world. unfold bind at 1. rewrite Hrun.
    reflexivity.
  - intros [_ Hkeys] sid d Hd. apply Hall, elem_of_dict_items. split; [|done].
    apply Hkeys. rewrite dict_lookup_unfold in Hd. eauto.
Qed.

Lemma reachable_dict_wf (E : Env) (w : World) : reachable E w -> dict_wf (drivers w).
Proof.
  induction 1 as [|op w Hw IH]; [apply dict_wf_empty|].
  destruct (is_registry_op op) eqn:Hop.
  - destruct op; try discriminate Hop; cbn [dispatch].
    + rewrite start_browser_unfold.
      destruct (bool_decide _); [|done]. cbv zeta.
      destruct (env_launch E _ _ _) as [e|d]; [done|]. by apply dict_wf_insert.
    + unfold close_session, try_except. rewrite close_session_body_unfold.
      destruct (current_session w) as [sid|]; [|done].
      destruct (drivers w !! sid) as [d|]; [|done].
      destruct (env_command E _ _) as [e|u]; [done|]. by apply dict_wf_delete.
  - by destruct (dispatch_keeps_state E op w Hop) as (new & ->).
Qed.

Lemma cleanup_empties_registry_witness :
  let w := snd (run Samples.failing_quit_env
                  [StartBrowser "chrome" true None; StartBrowser "firefox" true None]
                  initial_world) in
  ∃ new,
    cleanup Samples.failing_quit_env w = (Ret tt, mkWorld ∅ None (trace w ++ new))
    ∧ swept Samples.failing_quit_env (trace w) new "chrome_1700000000001" 0%nat
    ∧ swept Samples.failing_quit_env (trace w) new "firefox_1700000000003" 2%nat
    ∧ new = [DriverQuit 0%nat;
             PrintLine "Error closing browser session chrome_1700000000001: Message: invalid session id";
             DriverQuit 2%nat].
Proof.
  intros w.
  destruct (cleanup_empties_registry Samples.failing_quit_env w) as (new & Hrun & Hall).
  assert (dict_wf (drivers w)) as Hwf.
  { apply (reachable_dict_wf Samples.failing_quit_env).
    apply run_reachable, reachable_initial. }
  exists new. split; [exact Hrun|].
  split; [apply (Hall Hwf); reflexivity|].
  split; [apply (Hall Hwf); reflexivity|].
  apply (f_equal snd), (f_equal trace) in Hrun. vm_compute in Hrun.
  by injection Hrun as <-.
Defined.

(** ** C4: the locator resolver *)

Lemma locator_map_lookup (s : string) :
  locator_map !! s =
  if String.eqb s "id" then Some ID
  else if String.eqb s "css" then Some CSS_SELECTOR
  else if String.eqb s "xpath" then Some XPATH
  else if String.eqb s "name" then Some NAME
  else if String.eqb s "tag" then Some TAG_NAME
  else if String.eqb s "class" then Some CLASS_NAME
  else None.
Proof.
  unfold locator_map. cbn [list_to_map foldr uncurry fst snd].
  pose (step := fun k : string => String.eqb_spec s k).
  rewrite lookup_insert.
  destruct (step "id") as [->|?]; [by rewrite decide_True | rewrite decide_False by congruence].
  rewrite lookup_insert.
  destruct (step "css") as [->|?]; [by rewrite decide_True | rewrite decide_False by congruence].
  rewrite lookup_insert.
  destruct (step "xpath") as [->|?]; [by rewrite decide_True | rewrite decide_False by congruence].
  rewrite lookup_insert.
  destruct (step "name") as [->|?]; [by rewrite decide_True | rewrite decide_False by congruence].
  rewrite lookup_insert.
  destruct (step "tag") as [->|?]; [by rewrite decide_True | rewrite decide_False by congruence].
  rewrite lookup_insert.
  destruct (step "class") as [->|?]; [by rewrite decide_True | rewrite decide_False by congruence].
  apply lookup_empty.
Qed.

Lemma get_locator_spec (by_ : string) (w : World) :
  get_locator by_ w =
  match native_locator_kind by_ with
  | Some loc => (Ret loc, w)
  | None => (Raise (ValueError ("Unsupported locator strategy: " +:+ by_)), w)
  end.
Proof.
  unfold get_locator, native_locator_kind. rewrite locator_map_lookup.
  by repeat (destruct (String.eqb _ _); [done|]).
Qed.

Lemma supported_native (by_ : string) :
  supported_strategy by_ = true <-> is_Some (native_locator_kind by_).
Proof.
  unfold supported_strategy, native_locator_kind.
  rewrite bool_decide_eq_true, !elem_of_cons, elem_of_nil.
  repeat match goal with
         | |- _ <-> is_Some (if String.eqb _ ?k then _ else _) =>
             destruct (String.eqb_spec (lower by_) k) as [->|?];
             [split; [by eauto | intros _; auto 10] | ]
         end.
  split; [|intros [? [=]]].
  intros H. repeat (destruct H as [H|H]; [done|]). done.
Qed.

Lemma unsupported_native (by_ : string) :
  supported_strategy by_ = false -> native_locator_kind by_ = None.
Proof.
  intros Hs. destruct (native_locator_kind by_) as [loc|] eqn:Hn; [|done].
  assert (supported_strategy by_ = true) by (apply supported_native; rewrite Hn; eauto).
  congruence.
Qed.

Lemma wait_for_unfold (E : Env) (d : Driver) (secs : Q) (cond : Condition)
    (by_ value : string) (w : World) :
  wait_for E d secs cond by_ value w =
  match native_locator_kind by_ with
  | Some loc => (answer (env_until E (trace w) d secs cond loc value),
                 record_call (Until d secs cond loc value) w)
  | None => (Raise (ValueError ("Unsupported locator strategy: " +:+ by_)), w)
  end.
Proof.
  unfold wait_for, bind. rewrite get_locator_spec.
  by destruct (native_locator_kind by_).
Qed.

Create HintDb tools discriminated.
#[local] Hint Unfold find_element click_element send_keys get_element_text hover
  drag_and_drop double_click right_click upload_file
  find_element_body click_element_body send_keys_body get_element_text_body
  hover_body drag_and_drop_body double_click_body right_click_body
  upload_file_body : tools.

(** Step through [driver = get_driver()] to the division of the timeout. *)
Ltac enter_body Hdrv :=
  unfold try_except; unfold bind at 1; rewrite Hdrv; cbv beta iota;
  unfold bind at 1, pure.

(** Step through the first wait, once the division has given its result. *)
Ltac enter_wait := cbn [answer]; unfold bind at 1; rewrite wait_for_unfold.

Lemma rejected_at_once (E : Env) (op : Op) (w : World) (d : Driver) (by_ : string) :
  get_driver w = (Ret d, w) ->
  head (op_strategies op) = Some by_ ->
  supported_strategy by_ = false ->
  dispatch E op w =
  (Ret (op_error_label op +:+ ": " +:+ rejection_text op by_), w).
Proof.
  intros Hdrv Hhead Hbad%unsupported_native.
  destruct op; try discriminate Hhead; injection Hhead as ->;
    unfold rejection_text; cbn [dispatch op_timeout default op_error_label].
  all: autounfold with tools; enter_body Hdrv.
  all: destruct (timeout_seconds _) as [e|secs]; [done|].
  all: enter_wait; by rewrite Hbad.
Qed.

Lemma drag_and_drop_target_rejected (E : Env) (w : World) (d : Driver)
    (by_ value target_by target_value : string) (timeout : option Z) (loc : By) :
  get_driver w = (Ret d, w) ->
  native_locator_kind by_ = Some loc ->
  native_locator_kind target_by = None ->
  ∃ s, drag_and_drop E by_ value target_by target_value timeout w =
       (Ret s, add_calls (waits_before_rejection d
                            (DragAndDrop by_ value target_by target_value timeout)) w)
       ∧ is_failure s = true.
Proof.
  intros Hdrv Hsrc Htgt. cbn [waits_before_rejection]. rewrite Hsrc.
  autounfold with tools. enter_body Hdrv.
  destruct (timeout_seconds _) as [e|secs]; cbn [answer].
  - eexists. by rewrite add_calls_nil.
  - enter_wait. rewrite Hsrc.
    destruct (env_until E _ _ _ _ _ _) as [e|el]; cbn [answer].
    + by eexists.
    + unfold bind at 1. rewrite wait_for_unfold, Htgt. by eexists.
Qed.

(** C4, as stated, fails for the target strategy of [drag_and_drop]: with a
    current session, a resolvable source strategy and the unsupported target
    strategy "bogus", the tool returns a failure, but only after it has
    waited for the source element. *)
Lemma unsupported_target_waits_for_source :
  let w := snd (start_browser Samples.steady_env "chrome" false None initial_world) in
  let op := DragAndDrop "id" "a" "bogus" "b" None in
  In "bogus" (op_strategies op)
  ∧ supported_strategy "bogus" = false
  ∧ get_driver w = (Ret 0%nat, w)
  ∧ (∃ secs,
       timeout_seconds 10000 = inr secs
       ∧ dispatch Samples.steady_env op w =
         (Ret "Error performing drag and drop: Unsupported locator strategy: bogus",
          add_calls [Until 0%nat secs presence_of_element_located ID "a"] w))
  ∧ trace (snd (dispatch Samples.steady_env op w)) ≠ trace w.
Proof.
  cbv zeta. split; [simpl; tauto|]. split; [reflexivity|].
  split; [reflexivity|]. split; [eexists; split; vm_compute; reflexivity|].
  vm_compute. intros H. discriminate H.
Qed.

(** C4, amended.  With a current session, a locator-taking tool that is given
    an unsupported strategy returns a failure text.  It makes no engine call
    at all, except that [drag_and_drop] with a timeout that can be divided
    and a resolvable source strategy has waited once, for the source element;
    then no target wait and no gesture follow.  When the first strategy of
    the tool is the unsupported one, the text names it, unless the division
    of the timeout, which comes first, has raised; then the text is that of
    the division.  The resolver maps each recognised name, compared
    case-insensitively, to its native locator kind and raises on any other. *)
Theorem unsupported_strategy_fails (E : Env) (op : Op) (w : World) (d : Driver) :
  get_driver w = (Ret d, w) ->
  existsb (fun s => negb (supported_strategy s)) (op_strategies op) = true ->
  (∃ s, dispatch E op w = (Ret s, add_calls (waits_before_rejection d op) w)
        ∧ is_failure s = true
        ∧ (∀ by_, head (op_strategies op) = Some by_ ->
                  supported_strategy by_ = false ->
                  s = op_error_label op +:+ ": " +:+ rejection_text op by_))
  ∧ (∀ strategy w0,
       get_locator strategy w0 =
       match native_locator_kind strategy with
       | Some loc => (Ret loc, w0)
       | None => (Raise (ValueError ("Unsupported locator strategy: " +:+ strategy)), w0)
       end)
  ∧ (∀ strategy,
       supported_strategy strategy = true <-> is_Some (native_locator_kind strategy)).
Proof.
  intros Hdrv Hbad. split; [|split; [apply get_locator_spec | apply supported_native]].
  destruct (head (op_strategies op)) as [by_|] eqn:Hhead;
    [|by destruct op].
  destruct (supported_strategy by_) eqn:Hby.
  - (* only [drag_and_drop] has a second strategy *)
    destruct op; try discriminate Hhead; injection Hhead as ->;
      cbn [op_strategies existsb] in Hbad; rewrite Hby in Hbad;
      try discriminate Hbad.
    cbn [negb orb] in Hbad. rewrite orb_false_r in Hbad.
    apply negb_true_iff, unsupported_native in Hbad.
    destruct (proj1 (supported_native by_) Hby) as [loc Hloc].
    destruct (drag_and_drop_target_rejected E w d by_ value target_by target_value
                timeout loc Hdrv Hloc Hbad) as (s & Hrun & Hfail).
    exists s. cbn [dispatch].
    split; [done|]. split; [done|].
    intros by' [= <-]. congruence.
  - exists (op_error_label op +:+ ": " +:+ rejection_text op by_).
    rewrite (rejected_at_once E op w d by_ Hdrv Hhead Hby).
    assert (waits_before_rejection d op = []) as ->.
    { destruct op; try done. injection Hhead as ->.
      cbn [waits_before_rejection]. rewrite (unsupported_native _ Hby).
      by destruct (timeout_seconds _). }
    rewrite add_calls_nil. split; [done|]. split; [apply error_label_is_failure|].
    intros by' [= <-]. done.
Qed.

Lemma unsupported_strategy_fails_witness :
  let w := snd (start_browser Samples.steady_env "chrome" false None initial_world) in
  (∃ s, dispatch Samples.steady_env (ClickElement "Link Text" "Next" None) w
        = (Ret s, add_calls [] w)
        ∧ is_failure s = true
        ∧ (∀ by_, Some "Link Text" = Some by_ ->
                  supported_strategy by_ = false ->
                  s = "Error clicking element: Unsupported locator strategy: " +:+ by_))
  ∧ (∀ strategy w0,
       get_locator strategy w0 =
       match native_locator_kind strategy with
       | Some loc => (Ret loc, w0)
       | None => (Raise (ValueError ("Unsupported locator strategy: " +:+ strategy)), w0)
       end)
  ∧ (∀ strategy,
       supported_strategy strategy = true <-> is_Some (native_locator_kind strategy)).
Proof.
  refine (unsupported_strategy_fails Samples.steady_env
            (ClickElement "Link Text" "Next" None)
            (snd (start_browser Samples.steady_env "chrome" false None initial_world))
            0%nat _ _); reflexivity.
Defined.

(** A timeout beyond the range of a double ends a tool at the division,
    before the resolver sees the strategy. *)
Example unsupported_strategy_after_overflow :
  let w := snd (start_browser Samples.steady_env "chrome" false None initial_world) in
  dispatch Samples.steady_env (FindElement "bogus" "a" (Some (10 ^ 312))) w
  = (Ret "Error finding element: integer division result too large for a float", w).
Proof. vm_compute. reflexivity. Qed.

(** ** C8: timeouts *)

Lemma round_half_even_near (num den : Z) :
  0 < den -> 2 * Z.abs (round_half_even num den * den - num) <= den.
Proof.
  intros Hden. unfold round_half_even.
  pose proof (Z.div_mod num den ltac:(lia)) as Hdiv.
  pose proof (Z.mod_pos_bound num den Hden) as Hmod.
  destruct (Z.compare_spec (2 * (num mod den)) den) as [Heq|Hlt|Hgt];
    [destruct (Z.even (num / den))|..]; nia.
Qed.

Lemma round_half_even_le (num den bound : Z) :
  0 < den -> 0 <= num -> num < bound * den -> 0 <= round_half_even num den <= bound.
Proof.
  intros Hden Hnum Hlt. unfold round_half_even.
  pose proof (Z.div_mod num den ltac:(lia)) as Hdiv.
  pose proof (Z.mod_pos_bound num den Hden) as Hmod.
  assert (0 <= num / den) by (apply Z.div_pos; lia).
  assert (num / den < bound) by (apply Z.div_lt_upper_bound; lia).
  destruct (Z.compare_spec (2 * (num mod den)) den) as [Heq|Hlt'|Hgt];
    [destruct (Z.even (num / den))|..]; lia.
Qed.

Lemma pow2_pos (k : Z) : 0 <= k -> 0 < 2 ^ k.
Proof. intros. apply Z.pow_pos_nonneg; lia. Qed.

Lemma pow2_split (a b : Z) : 0 <= a -> 0 <= b -> 2 ^ (a + b) = 2 ^ a * 2 ^ b.
Proof. intros. apply Z.pow_add_r; lia. Qed.

(** [2^c <= n/1000 < 2^(c+1)], with the powers on the side where they are whole. *)
Lemma binade_1000_bounds (n : Z) :
  0 < n ->
  let c := binade_1000 n in
  (0 <= c -> 1000 * 2 ^ c <= n < 1000 * 2 ^ (c + 1))
  ∧ (c < 0 -> 1000 <= n * 2 ^ (- c) /\ n * 2 ^ (- c - 1) < 1000).
Proof.
  intros Hn. unfold binade_1000.
  pose proof (Z.log2_spec n Hn) as [Hlo Hhi].
  pose proof (Z.log2_nonneg n) as HL.
  set (L := Z.log2 n) in *.
  destruct (0 <=? L - 9) eqn:Hc0.
  - apply Z.leb_le in Hc0.
    assert (2 ^ L = 2 ^ (L - 9) * 512) as HL9
      by (replace L with ((L - 9) + 9) at 1 by lia; rewrite pow2_split by lia; reflexivity).
    assert (2 ^ (Z.succ L) = 2 ^ (L - 9) * 1024) as HL10
      by (replace (Z.succ L) with ((L - 9) + 10) by lia; rewrite pow2_split by lia; reflexivity).
    pose proof (pow2_pos (L - 9) Hc0).
    destruct (1000 * 2 ^ (L - 9) <=? n) eqn:Htest.
    + apply Z.leb_le in Htest. cbv zeta. split; [|lia]. intros _.
      replace (L - 9 + 1) with ((L - 9) + 1) by lia. rewrite pow2_split by lia.
      change (2 ^ 1) with 2. lia.
    + apply Z.leb_gt in Htest. cbv zeta. split.
      * intros Hc. replace (L - 9 - 1 + 1) with (L - 9) by lia.
        split; [|lia].
        assert (2 ^ (L - 9) = 2 ^ (L - 9 - 1) * 2) as Hhalf
          by (replace (L - 9) with ((L - 9 - 1) + 1) at 1 by lia;
              rewrite pow2_split by lia; reflexivity).
        pose proof (pow2_pos (L - 9 - 1) Hc). lia.
      * intros Hc. assert (L = 9) as HL9' by lia. rewrite HL9' in *.
        change (- (9 - 9 - 1)) with 1. change (- (9 - 9 - 1) - 1) with 0.
        change (2 ^ 1) with 2. change (2 ^ 0) with 1.
        change (2 ^ (9 - 9)) with 1 in Htest. change (2 ^ 9) with 512 in Hlo. lia.
  - apply Z.leb_gt in Hc0.
    assert (2 ^ L * 2 ^ (9 - L) = 512) as HL9
      by (rewrite <- pow2_split by lia; replace (L + (9 - L)) with 9 by lia; reflexivity).
    pose proof (pow2_pos (9 - L) ltac:(lia)) as Hp.
    pose proof (pow2_pos L HL) as HpL.
    replace (- (L - 9)) with (9 - L) by lia.
    destruct (1000 <=? n * 2 ^ (9 - L)) eqn:Htest.
    + apply Z.leb_le in Htest. cbv zeta. split; [lia|]. intros _.
      replace (- (L - 9)) with (9 - L) by lia. split; [lia|].
      assert (2 ^ (9 - L) = 2 ^ (9 - L - 1) * 2) as Hhalf
        by (replace (9 - L) with ((9 - L - 1) + 1) at 1 by lia;
            rewrite pow2_split by lia; reflexivity).
      assert (2 ^ Z.succ L * 2 ^ (9 - L - 1) = 512) as Hs
        by (rewrite <- pow2_split by lia; replace (Z.succ L + (9 - L - 1)) with 9 by lia;
            reflexivity).
      pose proof (pow2_pos (9 - L - 1) ltac:(lia)). nia.
    + apply Z.leb_gt in Htest. cbv zeta. split; [lia|]. intros _.
      replace (- (L - 9 - 1)) with (10 - L) by lia.
      replace (10 - L - 1) with (9 - L) by lia.
      split; [|lia].
      assert (2 ^ L * 2 ^ (10 - L) = 1024) as HL10
        by (rewrite <- pow2_split by lia; replace (L + (10 - L)) with 10 by lia; reflexivity).
      pose proof (pow2_pos (10 - L) ltac:(lia)). nia.
Qed.

Lemma pow2_mono (a b : Z) : 0 <= a <= b -> 2 ^ a <= 2 ^ b.
Proof. intros. apply Z.pow_le_mono_r; lia. Qed.

Lemma nearest_double_1000_spec (n : Z) :
  0 < n ->
  let m := fst (nearest_double_1000 n) in
  let e := snd (nearest_double_1000 n) in
  0 <= m <= 2 ^ 53
  ∧ (0 <= e -> 2 ^ 53 * Z.abs (m * 2 ^ e * 1000 - n) <= n
               ∧ (2 ^ 1024 <= m * 2 ^ e -> 1000 * 2 ^ 1023 <= n))
  ∧ (e < 0 -> 2 ^ 53 * Z.abs (m * 1000 - n * 2 ^ (- e)) <= n * 2 ^ (- e)).
Proof.
  intros Hn. unfold nearest_double_1000; cbn [fst snd].
  pose proof (binade_1000_bounds n Hn) as [Hpos Hneg]. cbv zeta in Hpos, Hneg.
  set (c := binade_1000 n) in *. set (e := c - 52).
  destruct (0 <=? e) eqn:He.
  - apply Z.leb_le in He. destruct (Hpos ltac:(lia)) as [Hlo Hhi].
    pose proof (pow2_pos e He) as Hpe.
    assert (2 ^ c = 2 ^ e * 2 ^ 52) as Hc
      by (replace c with (e + 52) by lia; apply pow2_split; lia).
    assert (2 ^ (c + 1) = 2 ^ e * 2 ^ 53) as Hc1
      by (replace (c + 1) with (e + 53) by lia; apply pow2_split; lia).
    pose proof (round_half_even_near n (1000 * 2 ^ e) ltac:(lia)) as Hnear.
    pose proof (round_half_even_le n (1000 * 2 ^ e) (2 ^ 53) ltac:(lia) ltac:(lia)
                  ltac:(lia)) as Hle.
    set (m := round_half_even n (1000 * 2 ^ e)) in *.
    split; [exact Hle|]. split; [|lia]. intros _. split.
    + replace (m * 2 ^ e * 1000) with (m * (1000 * 2 ^ e)) by ring.
      change (2 ^ 53) with (2 ^ 52 * 2). lia.
    + intros Hover.
      assert (971 <= e) as Hbig.
      { destruct (Z_lt_le_dec e 971) as [Hsmall|]; [|done].
        pose proof (pow2_mono e 970 ltac:(lia)) as Hmono.
        assert (m * 2 ^ e <= 2 ^ 53 * 2 ^ 970) by nia.
        change (2 ^ 53 * 2 ^ 970) with (2 ^ 1023) in *.
        assert (2 ^ 1023 < 2 ^ 1024) by (apply Z.pow_lt_mono_r; lia). lia. }
      pose proof (pow2_mono 1023 c ltac:(lia)). lia.
  - apply Z.leb_gt in He.
    pose proof (pow2_pos (- e) ltac:(lia)) as Hpe.
    pose proof (round_half_even_near (n * 2 ^ (- e)) 1000 ltac:(lia)) as Hnear.
    assert (1000 * 2 ^ 52 <= n * 2 ^ (- e) < 1000 * 2 ^ 53) as Hrange.
    { destruct (Z_lt_le_dec c 0) as [Hc|Hc].
      - destruct (Hneg Hc) as [Hlo Hhi].
        assert (2 ^ (- e) = 2 ^ (- c) * 2 ^ 52) as ->
          by (replace (- e) with (- c + 52) by lia; apply pow2_split; lia).
        assert (2 ^ (- c) = 2 ^ (- c - 1) * 2) as Hhalf
          by (replace (- c) with ((- c - 1) + 1) at 1 by lia; rewrite pow2_split by lia;
              reflexivity).
        change (2 ^ 53) with (2 ^ 52 * 2).
        assert (0 < 2 ^ 52) by done. nia.
      - destruct (Hpos Hc) as [Hlo Hhi].
        assert (2 ^ c * 2 ^ (- e) = 2 ^ 52) as Hce
          by (rewrite <- pow2_split by lia; f_equal; lia).
        assert (2 ^ (c + 1) = 2 ^ c * 2) as Hc1
          by (rewrite pow2_split by lia; reflexivity).
        pose proof (pow2_pos c Hc).
        change (2 ^ 53) with (2 ^ 52 * 2). nia. }
    pose proof (round_half_even_le (n * 2 ^ (- e)) 1000 (2 ^ 53) ltac:(lia) ltac:(lia)
                  ltac:(lia)) as Hle.
    set (m := round_half_even (n * 2 ^ (- e)) 1000) in *.
    split; [exact Hle|]. split; [lia|]. intros _.
    change (2 ^ 53) with (2 ^ 52 * 2). lia.
Qed.

Lemma Qabs_bound_whole (V a : Z) :
  2 ^ 53 * Z.abs (V * 1000 - a) <= Z.abs a ->
  (Qabs (inject_Z V * 1000 - inject_Z a) * inject_Z (2 ^ 53) <= Qabs (inject_Z a))%Q.
Proof.
  intros H. unfold Qle, Qabs, Qminus, Qplus, Qmult, Qopp, inject_Z; cbn [Qnum Qden].
  rewrite ?Pos.mul_1_r, ?Z.mul_1_r.
  replace (V * 1000 + - a) with (V * 1000 - a) by ring. lia.
Qed.

Lemma Qabs_bound_dyadic (m a : Z) (p : positive) :
  2 ^ 53 * Z.abs (m * 1000 - a * Z.pos p) <= Z.abs a * Z.pos p ->
  (Qabs (Qmake m p * 1000 - inject_Z a) * inject_Z (2 ^ 53) <= Qabs (inject_Z a))%Q.
Proof.
  intros H. unfold Qle, Qabs, Qminus, Qplus, Qmult, Qopp, inject_Z; cbn [Qnum Qden].
  rewrite ?Pos.mul_1_r, ?Z.mul_1_r.
  replace (m * 1000 + - a * Z.pos p) with (m * 1000 - a * Z.pos p) by ring. lia.
Qed.

(** The quotient that [a / 1000] returns is within half a unit in the last
    place of the exact quotient, and the division raises only when the
    quotient reaches [2^1023]. *)
Lemma truediv_1000_spec (a : Z) :
  match truediv_1000 a with
  | inr secs =>
      (Qabs (secs * 1000 - inject_Z a) * inject_Z (2 ^ 53) <= Qabs (inject_Z a))%Q
  | inl e =>
      e = OverflowError "integer division result too large for a float"
      ∧ 1000 * 2 ^ 1023 <= Z.abs a
  end.
Proof.
  unfold truediv_1000. destruct (a =? 0) eqn:Hzero.
  - apply Z.eqb_eq in Hzero. subst a. apply (Qabs_bound_whole 0 0). done.
  - apply Z.eqb_neq in Hzero.
    pose proof (nearest_double_1000_spec (Z.abs a) ltac:(lia)) as Hspec.
    destruct (nearest_double_1000 (Z.abs a)) as [m e]. cbn [fst snd] in Hspec.
    destruct Hspec as (Hm & Hwhole & Hdyadic).
    destruct (2 ^ 1024 <=? m * 2 ^ Z.max e 0) eqn:Hover.
    + apply Z.leb_le in Hover. split; [done|].
      destruct (Z_lt_le_dec e 0) as [He|He].
      * rewrite Z.max_r in Hover by lia. change (2 ^ 0) with 1 in Hover.
        assert (2 ^ 53 < 2 ^ 1024) by (apply Z.pow_lt_mono_r; lia). lia.
      * rewrite Z.max_l in Hover by lia. by apply Hwhole.
    + unfold float_value. destruct (0 <=? e) eqn:He.
      * apply Z.leb_le in He. destruct (Hwhole He) as [Hnear _].
        apply Qabs_bound_whole.
        set (X := m * 2 ^ e) in *.
        replace (Z.sgn a * m * 2 ^ e) with (Z.sgn a * X) by (unfold X; ring).
        destruct a; cbn [Z.sgn Z.abs] in *; lia.
      * apply Z.leb_gt in He. specialize (Hdyadic He).
        pose proof (pow2_pos (- e) ltac:(lia)) as Hp.
        apply Qabs_bound_dyadic. rewrite Z2Pos.id by done.
        set (P := 2 ^ (- e)) in *.
        destruct a; cbn [Z.sgn Z.abs] in *; [done|nia|nia].
Qed.

Lemma timeout_seconds_default :
  ∃ secs, timeout_seconds (timeout_arg None) = inr secs ∧ (secs == 10)%Q.
Proof. eexists. split; [vm_compute; reflexivity | vm_compute; reflexivity]. Qed.

(** [1 / 1000] is the double [0.001], whose exact value Python shows as
    the ratio 1152921504606847 / 1152921504606846976; [10 ** 312 / 1000]
    raises. *)
Example timeout_seconds_samples :
  (∃ secs, timeout_seconds 1 = inr secs
           ∧ (secs == 1152921504606847 # 1152921504606846976)%Q)
  ∧ timeout_seconds (10 ^ 312)
    = inl (OverflowError "integer division result too large for a float").
Proof.
  split; [eexists; split; vm_compute; reflexivity | vm_compute; reflexivity].
Qed.

Lemma wait_timeouts_app (l1 l2 : list Call) :
  wait_timeouts (l1 ++ l2) = wait_timeouts l1 ++ wait_timeouts l2.
Proof. apply omap_app. Qed.

Lemma wait_with_timeouts (r : exn + Q) (new : list Call) :
  Forall (wait_with r) new -> Forall (fun q => r = inr q) (wait_timeouts new).
Proof.
  induction 1 as [|c new Hc _ IH]; [constructor|].
  destruct c; simpl; try exact IH. by constructor.
Qed.

Lemma starts_with_bind {A B} (m : M A) (k : A -> M B) (w : World) (c : Call)
    (r : Outcome A) :
  m w = (r, record_call c w) ->
  (∀ a, emits (fun _ => True) (k a)) ->
  starts_with c (bind m k) w.
Proof.
  intros Hm Hk. unfold starts_with, bind. rewrite Hm.
  destruct r as [a|e].
  - destruct (Hk a (record_call c w)) as (rest & -> & _).
    exists rest. by rewrite record_call_add_calls, add_calls_app.
  - by exists [].
Qed.

Lemma starts_with_try_except {A} (body : M A) (handler : exn -> M A) (w : World)
    (c : Call) :
  starts_with c body w ->
  (∀ e, emits (fun _ => True) (handler e)) ->
  starts_with c (try_except body handler) w.
Proof.
  intros [rest Hbody] Hh. unfold starts_with, try_except.
  destruct (body w) as [[a|e] w1]; simpl in Hbody; subst w1.
  - by exists rest.
  - destruct (Hh e (add_calls (c :: rest) w)) as (more & -> & _).
    exists (rest ++ more). by rewrite add_calls_app.
Qed.

Lemma starts_with_get_driver {A} (k : Driver -> M A) (w : World) (c : Call) (d : Driver) :
  get_driver w = (Ret d, w) ->
  starts_with c (k d) w ->
  starts_with c (bind get_driver k) w.
Proof. intros Hdrv Hk. unfold starts_with, bind. by rewrite Hdrv. Qed.

Lemma starts_with_pure {A B} (r : exn + A) (a : A) (k : A -> M B) (w : World) (c : Call) :
  r = inr a ->
  starts_with c (k a) w ->
  starts_with c (bind (pure r) k) w.
Proof. intros -> Hk. exact Hk. Qed.

(** With a current session, a timeout that can be divided and a resolvable
    first strategy, a timed tool starts by waiting for the quotient. *)
Lemma timed_op_waits_first (E : Env) (op : Op) (t : option Z) (w : World)
    (d : Driver) (by_ : string) (secs : Q) :
  op_timeout op = Some t ->
  timeout_seconds (timeout_arg t) = inr secs ->
  get_driver w = (Ret d, w) ->
  head (op_strategies op) = Some by_ ->
  supported_strategy by_ = true ->
  ∃ cond loc value, starts_with (Until d secs cond loc value) (dispatch E op) w.
Proof.
  intros Ht Hsecs Hdrv Hhead [loc Hloc]%supported_native.
  destruct op; try discriminate Ht; injection Ht as ->; injection Hhead as ->.
  all: eexists _, loc, _; cbn [dispatch]; autounfold with tools.
  all: apply starts_with_try_except; [ | intros ?; apply emits_on_error ].
  all: apply starts_with_get_driver with d; [done|].
  all: apply starts_with_pure with secs; [done|].
  all: eapply starts_with_bind;
    [ rewrite wait_for_unfold, Hloc; reflexivity
    | intros ?; repeat emits_step; done ].
Qed.

Lemma get_driver_cases (w : World) :
  (∃ d, get_driver w = (Ret d, w)) ∨ no_session w.
Proof.
  unfold no_session.
  destruct (current_session w ≫= _) as [d|] eqn:Hcur; [left | by right].
  exists d. unfold get_driver, bind, get_world. by rewrite Hcur.
Qed.

(** When the division of the timeout raises, a timed tool stops there. *)
Lemma timed_op_division_raises (E : Env) (op : Op) (t : option Z) (w : World)
    (d : Driver) (e : exn) :
  op_timeout op = Some t ->
  timeout_seconds (timeout_arg t) = inl e ->
  get_driver w = (Ret d, w) ->
  dispatch E op w = (Ret (op_error_label op +:+ ": " +:+ str_exn e), w).
Proof.
  intros Ht Hsecs Hdrv.
  destruct op; try discriminate Ht; injection Ht as ->; cbn [dispatch op_error_label].
  all: autounfold with tools; enter_body Hdrv; by rewrite Hsecs.
Qed.

(** C8.  A timed tool reads its [timeout] argument in milliseconds, 10000
    when the argument is left out, and divides it by 1000 once.  Every wait
    the tool makes -- both waits of [drag_and_drop] -- is given the quotient
    as Python computes it: the double nearest to the exact quotient, which
    differs from it by at most the fraction [2^-53] of its size, and is
    exactly 10 for the default.  With a current session and a resolvable
    strategy the tool does wait, first of all its calls.  The division
    raises only for a quotient of at least [2^1023] seconds; the tool then
    returns the text of that error and makes no call. *)
Theorem timeout_in_seconds (E : Env) (op : Op) (t : option Z) (w : World) :
  op_timeout op = Some t ->
  let ms := default 10000 t in
  ∃ new,
    snd (dispatch E op w) = add_calls new w
    ∧ match timeout_seconds ms with
      | inr secs =>
          Forall (fun q => q = secs) (wait_timeouts new)
          ∧ (Qabs (secs * 1000 - inject_Z ms) * inject_Z (2 ^ 53)
             <= Qabs (inject_Z ms))%Q
          ∧ (∀ d by_,
               get_driver w = (Ret d, w) ->
               head (op_strategies op) = Some by_ ->
               supported_strategy by_ = true ->
               head (wait_timeouts new) = Some secs)
      | inl e =>
          new = []
          ∧ 1000 * 2 ^ 1023 <= Z.abs ms
          ∧ (∀ d, get_driver w = (Ret d, w) ->
                  fst (dispatch E op w)
                  = Ret (op_error_label op +:+ ": " +:+ str_exn e))
      end
    ∧ (∃ ten, timeout_seconds (default 10000 None) = inr ten ∧ (ten == 10)%Q).
Proof.
  intros Ht ms.
  assert (is_registry_op op = false) as Hop by (by destruct op).
  assert (is_start_browser op = false) as Hstart by (by destruct op).
  destruct (dispatch_emits E op Hop w) as (new & Hw & Hnew).
  rewrite Ht in Hnew. cbn [default] in Hnew. fold ms in Hnew.
  exists new. split; [done|]. split; [|apply timeout_seconds_default].
  pose proof (truediv_1000_spec ms) as Hdiv.
  unfold timeout_seconds in *.
  destruct (truediv_1000 ms) as [e|secs] eqn:Hsecs.
  - destruct Hdiv as [_ Hbig].
    assert (snd (dispatch E op w) = w) as Hsame.
    { destruct (get_driver_cases w) as [[d Hdrv]|Hno].
      - by rewrite (timed_op_division_raises E op t w d e Ht Hsecs Hdrv).
      - by rewrite (dispatch_no_session E op w Hstart Hno). }
    split; [|split; [done|]].
    + rewrite Hsame in Hw. apply (f_equal trace) in Hw. cbn [add_calls trace] in Hw.
      rewrite <- (app_nil_r (trace w)) in Hw at 1. by apply app_inv_head in Hw.
    + intros d Hdrv. by rewrite (timed_op_division_raises E op t w d e Ht Hsecs Hdrv).
  - split; [|split; [done|]].
    + apply wait_with_timeouts in Hnew. eapply Forall_impl; [exact Hnew|].
      intros q Hq. change (truediv_1000 ms = inr q) in Hq.
      rewrite Hsecs in Hq. by injection Hq.
    + intros d by_ Hdrv Hhead Hby.
      destruct (timed_op_waits_first E op t w d by_ secs Ht Hsecs Hdrv Hhead Hby)
        as (cond & loc & value & rest & Hfirst).
      rewrite Hw in Hfirst. injection Hfirst as Heq%app_inv_head.
      by rewrite Heq.
Qed.

Lemma timeout_in_seconds_witness :
  let w := snd (start_browser Samples.steady_env "chrome" false None initial_world) in
  ∃ new secs,
    timeout_seconds 10000 = inr secs
    ∧ (secs == 10)%Q
    ∧ snd (dispatch Samples.steady_env (DragAndDrop "css" "#a" "XPath" "//b" None) w)
      = add_calls new w
    ∧ wait_timeouts new = [secs; secs]
    ∧ head (wait_timeouts new) = Some secs.
Proof.
  intros w.
  destruct (timeout_in_seconds Samples.steady_env
              (DragAndDrop "css" "#a" "XPath" "//b" None) None w eq_refl)
    as (new & Hw & Hmatch & _).
  cbn [default] in Hmatch.
  destruct (timeout_seconds 10000) as [e|secs] eqn:Hsecs;
    [vm_compute in Hsecs; discriminate Hsecs|].
  destruct Hmatch as (Hall & _ & Hfirst).
  exists new, secs. split; [done|]. split.
  - vm_compute in Hsecs. by injection Hsecs as <-.
  - split; [exact Hw|]. split.
    + apply (f_equal trace) in Hw. vm_compute in Hw, Hsecs.
      injection Hsecs as <-. by injection Hw as <-.
    + apply (Hfirst 0%nat "css"); reflexivity.
Defined.

(** ** C9: session identifiers *)

Lemma session_id_inj (b b' : string) (t t' : Z) :
  b ∈ ["chrome"; "firefox"] -> b' ∈ ["chrome"; "firefox"] ->
  b +:+ "_" +:+ pretty t = b' +:+ "_" +:+ pretty t' ->
  b = b' ∧ t = t'.
Proof.
  rewrite !elem_of_cons, !elem_of_nil.
  intros [->|[->|[]]] [->|[->|[]]] Heq; cbn [String.append] in Heq;
    try discriminate Heq.
  all: split; [done|]; injection Heq as Heq; by apply (inj pretty).
Qed.

Lemma dispatch_ids_issued (E : Env) (op : Op) (w : World) :
  ids_issued w -> ids_issued (snd (dispatch E op w)).
Proof.
  intros Hw. destruct (is_registry_op op) eqn:Hop.
  - destruct op; try discriminate Hop; cbn [dispatch].
    + rewrite start_browser_unfold.
      destruct (bool_decide _) eqn:Hguard; [|done]. cbv zeta.
      apply bool_decide_eq_true in Hguard.
      destruct (env_launch E _ _ _) as [e|d]; cbn [snd].
      * intros sid Hsid. destruct (Hw sid Hsid) as (b & t & Hb & -> & Ht).
        exists b, t. split; [done|]. split; [done|].
        cbn [record_call trace]. apply elem_of_app. by left.
      * intros sid. cbn [drivers trace]. rewrite dict_lookup_insert.
        case_decide as Hsid.
        -- intros _. eexists _, _. split; [exact Hguard|]. split; [done|].
           apply elem_of_app. right. apply elem_of_cons. right. apply list_elem_of_singleton.
           reflexivity.
        -- intros Hold. destruct (Hw sid Hold) as (b & t & Hb & -> & Ht).
           exists b, t. split; [done|]. split; [done|]. apply elem_of_app. by left.
    + unfold close_session, try_except. rewrite close_session_body_unfold.
      destruct (current_session w) as [cur|]; [|done].
      destruct (drivers w !! cur) as [d|]; [|done].
      destruct (env_command E _ _) as [e|u]; cbn [snd on_error ret].
      * intros sid Hsid. destruct (Hw sid Hsid) as (b & t & Hb & -> & Ht).
        exists b, t. split; [done|]. split; [done|].
        cbn [record_call trace]. apply elem_of_app. by left.
      * intros sid. cbn [drivers trace]. intros [d' [_ Hd']%dict_lookup_delete_Some].
        destruct (Hw sid (ex_intro _ d' Hd')) as (b & t & Hb & -> & Ht).
        exists b, t. split; [done|]. split; [done|]. apply elem_of_app. by left.
  - destruct (dispatch_keeps_state E op w Hop) as (new & ->).
    intros sid Hsid. destruct (Hw sid Hsid) as (b & t & Hb & -> & Ht).
    exists b, t. split; [done|]. split; [done|].
    cbn [add_calls trace]. apply elem_of_app. by left.
Qed.

Lemma reachable_ids_issued (E : Env) (w : World) :
  reachable E w -> ids_issued w.
Proof.
  induction 1 as [|op w Hw IH].
  - intros sid [d Hd]. unfold initial_world in Hd; cbn [drivers] in Hd.
    by rewrite dict_lookup_empty in Hd.
  - by apply dispatch_ids_issued.
Qed.

(** C9, as stated, fails: two creations of the same browser kind that read
    the same millisecond get the same identifier, and the second replaces
    the entry of the first. *)
Lemma same_millisecond_overwrites :
  let r1 := start_browser Samples.frozen_clock_env "chrome" false None initial_world in
  let r2 := start_browser Samples.frozen_clock_env "chrome" false None (snd r1) in
  fst r1 = Ret "Browser started with session_id: chrome_1700000000000"
  ∧ fst r2 = Ret "Browser started with session_id: chrome_1700000000000"
  ∧ drivers (snd r1) !! "chrome_1700000000000" = Some 0%nat
  ∧ drivers (snd r2) !! "chrome_1700000000000" = Some 2%nat
  ∧ size (drivers (snd r2)) = 1%nat.
Proof. cbv zeta. repeat split; reflexivity. Qed.

(** C9, amended.  The mapping is keyed by identifier, so two entries never
    share one.  After any sequence of dispatcher operations, a creation whose
    clock reading differs from every reading taken before it in the run
    overwrites nothing: every registered entry is kept, and a successful
    launch adds one entry under an identifier that was not registered. *)
Theorem fresh_reading_keeps_entries (E : Env) (ops : list Op) (browser : string)
    (headless : bool) (arguments : option (list string)) :
  let w := snd (run E ops initial_world) in
  let opts := launch_options browser headless arguments in
  let now := env_time_ms E (trace w ++ [Launch browser opts]) in
  (∀ t, TimeMs t ∈ trace w -> t ≠ now) ->
  let w' := snd (start_browser E browser headless arguments w) in
  (∀ sid d, drivers w !! sid = Some d -> drivers w' !! sid = Some d)
  ∧ (∀ d, browser ∈ ["chrome"; "firefox"] ->
          env_launch E (trace w) browser opts = inr d ->
          drivers w !! (browser +:+ "_" +:+ pretty now) = None
          ∧ drivers w' = <[browser +:+ "_" +:+ pretty now := d]> (drivers w)
          ∧ size (drivers w') = S (size (drivers w))).
Proof.
  intros w opts now Hfresh w'.
  pose proof (reachable_ids_issued E w
                (run_reachable E ops initial_world (reachable_initial E))) as Hids.
  assert (browser ∈ ["chrome"; "firefox"] ->
          drivers w !! (browser +:+ "_" +:+ pretty now) = None) as Hnew.
  { intros Hb. destruct (drivers w !! _) as [d0|] eqn:Hd0; [|done].
    destruct (Hids _ (ex_intro _ d0 Hd0)) as (b & t & Hb' & Heq & Ht).
    apply session_id_inj in Heq as [_ <-]; [|done..].
    by destruct (Hfresh now Ht). }
  subst w'. rewrite start_browser_unfold. fold opts.
  destruct (bool_decide (browser ∈ _)) eqn:Hguard.
  - apply bool_decide_eq_true in Hguard. specialize (Hnew Hguard).
    cbv zeta. fold now.
    destruct (env_launch E _ _ _) as [e|d]; cbn [snd drivers record_call].
    + split; [done|]. intros d _ [=].
    + split.
      * intros sid d0 Hsid. rewrite dict_lookup_insert_ne; [done|]. congruence.
      * intros d' _ [= <-]. split; [done|]. split; [done|].
        by apply dict_size_insert_None.
  - apply bool_decide_eq_false in Hguard. split; [done|]. intros d Hb. done.
Qed.

Lemma fresh_reading_keeps_entries_witness :
  let w := snd (run Samples.steady_env [StartBrowser "chrome" false None] initial_world) in
  let w' := snd (start_browser Samples.steady_env "chrome" true None w) in
  drivers w !! "chrome_1700000000001" = Some 0%nat
  ∧ drivers w' !! "chrome_1700000000001" = Some 0%nat
  ∧ drivers w' !! "chrome_1700000000003" = Some 2%nat
  ∧ size (drivers w') = 2%nat.
Proof.
  intros w w'.
  assert (∀ t, TimeMs t ∈ trace w -> t ≠ 1700000000003) as Hfresh.
  { intros t Ht. vm_compute in Ht.
    apply elem_of_cons in Ht as [Ht|Ht]; [discriminate Ht|].
    apply list_elem_of_singleton in Ht. injection Ht as ->. discriminate. }
  destruct (fresh_reading_keeps_entries Samples.steady_env
              [StartBrowser "chrome" false None] "chrome" true None Hfresh)
    as [Hkeep Hadd].
  split; [reflexivity|]. split; [apply Hkeep; reflexivity|].
  split; reflexivity.
Defined.

(** ** Scenarios *)

Example scenario_start_navigate_find :
  fst (run Samples.no_element_env
         [StartBrowser "chrome" true None;
          Navigate "https://example.com";
          FindElement "id" "missing-element" (Some 100)]
         initial_world)
  = [Ret "Browser started with session_id: chrome_1700000000001";
     Ret "Navigated to https://example.com";
     Ret "Error finding element: Message: "].
Proof. reflexivity. Qed.

Example scenario_screenshot_without_session :
  take_screenshot Samples.steady_env None initial_world
  = (Ret "Error taking screenshot: No active browser session", initial_world).
Proof. reflexivity. Qed.

Example scenario_screenshot_to_file :
  let w := snd (start_browser Samples.steady_env "firefox" true None initial_world) in
  take_screenshot Samples.steady_env (Some "/tmp/page.png") w
  = (Ret "Screenshot saved to /tmp/page.png",
     add_calls [ScreenshotAsBase64 0%nat; OpenWb "/tmp/page.png";
                FileWrite "/tmp/page.png" "aGVsbG8="; FileClose "/tmp/page.png"] w).
Proof. reflexivity. Qed.

Example scenario_strategy_case_insensitive :
  get_locator "XPath" initial_world = (Ret XPATH, initial_world)
  ∧ get_locator "CLASS" initial_world = (Ret CLASS_NAME, initial_world)
  ∧ get_locator "link text" initial_world
    = (Raise (ValueError "Unsupported locator strategy: link text"), initial_world).
Proof. repeat split; reflexivity. Qed.

(** ** Tools without a session *)

(** Without a session that the pointer leads to -- the pointer is null, or
    names an id that is not in the mapping -- every tool except
    [start_browser] answers with its error label and "No active browser
    session", makes no call to the engine, the clock or the file system, and
    leaves the registry as it is. *)
Theorem no_session_no_call (E : Env) (op : Op) (w : World) :
  is_start_browser op = false ->
  no_session w ->
  ∃ s, dispatch E op w = (Ret s, w)
       ∧ s = op_error_label op +:+ ": No active browser session"
       ∧ is_failure s = true.
Proof.
  intros Hop Hno. eexists. split; [by apply dispatch_no_session|].
  split; [done | apply error_label_is_failure].
Qed.

Lemma no_session_no_call_witness :
  let w := mkWorld {[ "chrome_7" := 1%nat ]} (Some "chrome_8") [] in
  ∃ s, dispatch Samples.steady_env (PressKey "Enter") w = (Ret s, w)
       ∧ s = "Error pressing key: No active browser session"
       ∧ is_failure s = true.
Proof.
  refine (no_session_no_call Samples.steady_env (PressKey "Enter")
            (mkWorld {[ "chrome_7" := 1%nat ]} (Some "chrome_8") []) _ _);
    reflexivity.
Defined.

(** ** The failure marker *)

Lemma returns_plain_ret (s : string) : is_failure s = false -> returns_plain (ret s).
Proof. intros Hs w s' w' [= <- _]. exact Hs. Qed.

Lemma returns_plain_raise (e : exn) : returns_plain (raise e).
Proof. intros w s w' [=]. Qed.

Lemma returns_plain_bind {A} (m : M A) (k : A -> M string) :
  (∀ a, returns_plain (k a)) -> returns_plain (bind m k).
Proof.
  intros Hk w s w' Hrun. unfold bind in Hrun.
  destruct (m w) as [[a|e] w1]; [by eapply Hk | discriminate Hrun].
Qed.

Ltac plain_step :=
  first [ apply returns_plain_raise
        | apply returns_plain_ret; reflexivity
        | apply returns_plain_bind; intros ? ].

Lemma op_body_returns_plain (E : Env) (op : Op) : returns_plain (op_body E op).
Proof.
  destruct op; cbn [op_body].
  - unfold start_browser_body. destruct (negb _); repeat plain_step.
  - unfold navigate_body. repeat plain_step.
  - unfold find_element_body. repeat plain_step.
  - unfold click_element_body. repeat plain_step.
  - unfold send_keys_body. repeat plain_step.
  - unfold get_element_text_body. repeat plain_step.
  - unfold hover_body. repeat plain_step.
  - unfold drag_and_drop_body. repeat plain_step.
  - unfold double_click_body. repeat plain_step.
  - unfold right_click_body. repeat plain_step.
  - unfold press_key_body. repeat plain_step.
  - unfold upload_file_body. repeat plain_step.
  - unfold take_screenshot_body. do 2 plain_step.
    destruct (truthy output_path); repeat plain_step.
  - unfold close_session_body. repeat plain_step.
Qed.

(** The text a tool returns starts with "Error" exactly when its [try]
    block raised: no success text of any tool begins with the marker, so a
    caller can tell failure from success by the first five characters. *)
Theorem failure_marker_iff_raised (E : Env) (op : Op) (w : World) :
  ∃ s, fst (dispatch E op w) = Ret s
       ∧ (is_failure s = true <-> ∃ e w', op_body E op w = (Raise e, w')).
Proof.
  rewrite dispatch_try_except. unfold try_except.
  destruct (op_body E op w) as [[s|e] w'] eqn:Hbody; cbn [fst].
  - exists s. split; [done|]. split.
    + intros Hfail. pose proof (op_body_returns_plain E op w s w' Hbody). congruence.
    + intros (e & w'' & [=]).
  - eexists. split; [done|]. split; [eauto|].
    intros _. apply error_label_is_failure.
Qed.

Lemma failure_marker_iff_raised_witness :
  ∃ s, fst (dispatch Samples.no_element_env (FindElement "id" "Error" None)
              (mkWorld {[ "chrome_7" := 1%nat ]} (Some "chrome_7") [])) = Ret s
       ∧ (is_failure s = true <->
          ∃ e w', op_body Samples.no_element_env (FindElement "id" "Error" None)
                    (mkWorld {[ "chrome_7" := 1%nat ]} (Some "chrome_7") [])
                  = (Raise e, w')).
Proof.
  exact (failure_marker_iff_raised Samples.no_element_env
           (FindElement "id" "Error" None)
           (mkWorld {[ "chrome_7" := 1%nat ]} (Some "chrome_7") [])).
Defined.

(** ** Tools that only read the registry *)

(** Every tool except [start_browser] and [close_session] leaves the mapping
    and the current-session pointer exactly as they were, whatever the engine
    answers; it only adds calls to the trace. *)
Theorem reading_tools_keep_registry (E : Env) (op : Op) (w : World) :
  is_registry_op op = false ->
  drivers (snd (dispatch E op w)) = drivers w
  ∧ current_session (snd (dispatch E op w)) = current_session w
  ∧ ∃ new, trace (snd (dispatch E op w)) = trace w ++ new.
Proof.
  intros Hop. destruct (dispatch_keeps_state E op w Hop) as (new & ->).
  split; [done|]. split; [done|]. by exists new.
Qed.

Lemma reading_tools_keep_registry_witness :
  let w := mkWorld {[ "chrome_7" := 1%nat ]} (Some "chrome_7") [] in
  let w' := snd (dispatch Samples.steady_env (SendKeysTo "name" "q" "rocq" None) w) in
  drivers w' = drivers w
  ∧ current_session w' = current_session w
  ∧ ∃ new, trace w' = trace w ++ new.
Proof.
  refine (reading_tools_keep_registry Samples.steady_env
            (SendKeysTo "name" "q" "rocq" None)
            (mkWorld {[ "chrome_7" := 1%nat ]} (Some "chrome_7") []) _).
  reflexivity.
Defined.

(** ** What a tool asks of the engine *)

Lemma bind_Ret_inv {A B} (m : M A) (k : A -> M B) (w w' : World) (b : B) :
  bind m k w = (Ret b, w') ->
  ∃ a w1, m w = (Ret a, w1) ∧ k a w1 = (Ret b, w').
Proof.
  unfold bind. destruct (m w) as [[a|e] w1]; [eauto | discriminate].
Qed.

Lemma ret_inv {A} (a b : A) (w w' : World) : ret a w = (Ret b, w') -> a = b ∧ w' = w.
Proof. by intros [= -> ->]. Qed.

Lemma pure_inv {A} (r : exn + A) (a : A) (w w' : World) :
  pure r w = (Ret a, w') -> r = inr a ∧ w' = w.
Proof. unfold pure. destruct r as [e|a']; cbn [answer]; [discriminate|]. by intros [= -> ->]. Qed.

Lemma command_inv (E : Env) (c : Call) (w w' : World) (u : unit) :
  command E c w = (Ret u, w') ->
  env_command E (trace w) c = inr tt ∧ w' = add_calls [c] w.
Proof.
  unfold command. destruct (env_command E _ _) as [e|[]]; cbn [answer]; [discriminate|].
  by intros [= _ <-].
Qed.

Lemma query_inv (E : Env) (c : Call) (w w' : World) (s : string) :
  query E c w = (Ret s, w') ->
  env_query E (trace w) c = inr s ∧ w' = add_calls [c] w.
Proof.
  unfold query. destruct (env_query E _ _) as [e|s']; cbn [answer]; [discriminate|].
  by intros [= -> <-].
Qed.

Lemma wait_for_inv (E : Env) (d : Driver) (secs : Q) (cond : Condition)
    (by_ value : string) (w w' : World) (el : Element) :
  wait_for E d secs cond by_ value w = (Ret el, w') ->
  ∃ loc, native_locator_kind by_ = Some loc
         ∧ env_until E (trace w) d secs cond loc value = inr el
         ∧ w' = add_calls [Until d secs cond loc value] w.
Proof.
  rewrite wait_for_unfold. destruct (native_locator_kind by_) as [loc|]; [|discriminate].
  destruct (env_until E _ _ _ _ _ _) as [e|el'] eqn:Hwait; cbn [answer]; [discriminate|].
  intros [= -> <-]. by exists loc.
Qed.

Lemma with_exit_inv {A} (body : M A) (exit : M unit) (w w' : World) (a : A) :
  with_exit body exit w = (Ret a, w') ->
  ∃ w1 u, body w = (Ret a, w1) ∧ exit w1 = (Ret u, w').
Proof.
  unfold with_exit. destruct (body w) as [[a'|e] w1]; intros Hrun.
  - apply bind_Ret_inv in Hrun as (u & w2 & Hexit & [-> ->]%ret_inv). by exists w1, u.
  - apply bind_Ret_inv in Hrun as (u & w2 & _ & Hraise). discriminate Hraise.
Qed.

Lemma b64decode_inv (E : Env) (s data : string) (w w' : World) :
  b64decode E s w = (Ret data, w') -> env_b64decode E s = inr data ∧ w' = w.
Proof.
  unfold b64decode. destruct (env_b64decode E s) as [e|data']; cbn [answer]; [discriminate|].
  by intros [= -> ->].
Qed.

(** Take a successful run apart, step by step. *)
Ltac invert_run :=
  repeat match goal with
  | H : bind _ _ _ = (Ret _, _) |- _ =>
      apply bind_Ret_inv in H as (? & ? & ? & H); cbv beta in H
  | H : get_driver _ = (Ret _, _) |- _ =>
      apply get_driver_inv in H as [-> (? & ? & ?)]
  | H : pure _ _ = (Ret _, _) |- _ => apply pure_inv in H as [? ->]
  | H : wait_for _ _ _ _ _ _ _ = (Ret _, _) |- _ =>
      apply wait_for_inv in H as (? & ? & ? & ->)
  | H : command _ _ _ = (Ret _, _) |- _ => apply command_inv in H as [? ->]
  | H : query _ _ _ = (Ret _, _) |- _ => apply query_inv in H as [? ->]
  | H : b64decode _ _ _ = (Ret _, _) |- _ => apply b64decode_inv in H as [? ->]
  | H : with_exit _ _ _ = (Ret _, _) |- _ =>
      apply with_exit_inv in H as (? & ? & ? & ?)
  | H : ret _ _ = (Ret _, _) |- _ => apply ret_inv in H as [? ->]
  end.

Create HintDb readers discriminated.
#[local] Hint Unfold navigate_body find_element_body click_element_body send_keys_body
  get_element_text_body hover_body drag_and_drop_body double_click_body
  right_click_body press_key_body upload_file_body take_screenshot_body : readers.

(** When a reading tool returns its success text, there was a current
    session and the tool made exactly its own calls, each once and in the
    order of the source, all of them on the current driver or on the
    elements that its waits returned: [navigate] loaded its URL,
    [click_element] waited for a clickable element and clicked that element,
    [send_keys] cleared the element and then typed its text into it, the
    gesture tools performed their one gesture, [press_key] pressed and
    released its key, [take_screenshot] wrote the decoded screenshot to its
    own path and closed the file. *)
Theorem tools_success_calls (E : Env) (op : Op) (w w' : World) (s : string) :
  is_registry_op op = false ->
  op_body E op w = (Ret s, w') ->
  ∃ d new,
    get_driver w = (Ret d, w)
    ∧ w' = add_calls new w
    ∧ success_calls E (trace w) d op new.
Proof.
  intros Hop Hrun.
  destruct op; try discriminate Hop; cbn [op_body] in Hrun;
    autounfold with readers in Hrun.
  all: apply bind_Ret_inv in Hrun as (d & w1 & Hdrv & Hrun); cbv beta in Hrun.
  all: pose proof Hdrv as [-> _]%get_driver_inv.
  all: exists d; try (invert_run; eexists; split; [done|];
                       rewrite ?add_calls_app; split; [reflexivity|];
                       cbn [success_calls app]; unfold located;
                       cbn [add_calls trace] in *;
                       repeat eexists; eassumption).
  (* [take_screenshot] *)
  apply bind_Ret_inv in Hrun as (shot & w2 & [Hshot ->]%query_inv & Hrun).
  cbv beta in Hrun. cbn [success_calls].
  destruct (truthy output_path) as [path|] eqn:Hpath.
  - invert_run. eexists. split; [done|].
    rewrite ?add_calls_app. split; [reflexivity|]. cbn [app]. eauto 10.
  - invert_run. eexists. split; [done|]. split; [reflexivity|]. eauto.
Qed.

Lemma tools_success_calls_witness :
  let w := mkWorld {[ "chrome_7" := 1%nat; "chrome_9" := 4%nat ]} (Some "chrome_9") [] in
  let op := ClickElement "id" "go" (Some 1000) in
  ∃ d new,
    get_driver w = (Ret d, w)
    ∧ snd (op_body Samples.steady_env op w) = add_calls new w
    ∧ success_calls Samples.steady_env (trace w) d op new.
Proof.
  intros w op.
  refine (tools_success_calls Samples.steady_env op w
            (snd (op_body Samples.steady_env op w))
            "Element clicked using id='go'" _ _); vm_compute; reflexivity.
Defined.

(** When the first wait of a timed tool raises -- the element did not show
    up in time -- the tool returns its error label with the text of the
    exception, and that wait is its only call: no click, no typing, no
    gesture, and for [drag_and_drop] no wait for the target.  The wait is
    reached when the timeout could be divided and the strategy resolves. *)
Theorem failed_wait_stops_tool (E : Env) (op : Op) (t : option Z) (w : World)
    (d : Driver) (by_ : string) (secs : Q) (loc : By) (e : exn) :
  op_timeout op = Some t ->
  get_driver w = (Ret d, w) ->
  timeout_seconds (timeout_arg t) = inr secs ->
  head (op_strategies op) = Some by_ ->
  native_locator_kind by_ = Some loc ->
  let wait := Until d secs (op_condition op) loc (op_value op) in
  env_until E (trace w) d secs (op_condition op) loc (op_value op) = inl e ->
  dispatch E op w = (Ret (op_error_label op +:+ ": " +:+ str_exn e), add_calls [wait] w).
Proof.
  intros Ht Hdrv Hsecs Hhead Hloc wait Hwait. subst wait.
  destruct op; try discriminate Ht; injection Ht as ->; injection Hhead as ->;
    cbn [dispatch op_condition op_value op_error_label] in *;
    autounfold with tools; enter_body Hdrv; rewrite Hsecs; enter_wait;
    by rewrite Hloc, Hwait.
Qed.

Lemma failed_wait_stops_tool_witness :
  let w := mkWorld {[ "chrome_7" := 1%nat ]} (Some "chrome_7") [] in
  ∃ secs,
    timeout_seconds 250 = inr secs
    ∧ (secs == 1 # 4)%Q
    ∧ dispatch Samples.no_element_env (ClickElement "CSS" "#go" (Some 250)) w
      = (Ret ("Error clicking element" +:+ ": " +:+ str_exn (EngineError "Message: ")),
         add_calls [Until 1%nat secs element_to_be_clickable CSS_SELECTOR "#go"] w).
Proof.
  intros w. eexists. split; [vm_compute; reflexivity|]. split; [vm_compute; reflexivity|].
  refine (failed_wait_stops_tool Samples.no_element_env
            (ClickElement "CSS" "#go" (Some 250)) (Some 250) w
            1%nat "CSS" _ CSS_SELECTOR (EngineError "Message: ") _ _ _ _ _ _);
    vm_compute; reflexivity.
Defined.

(** ** [start_browser] *)

(** A successful [start_browser] launches once, with the headless flag of
    the browser ("--headless=new" for chrome, "--headless" for firefox) ahead
    of the extra arguments, then reads the clock once; the new session is
    stored under the browser name, "_" and the reading, it becomes the
    current session even when another one was current, [get_driver] now
    returns the new driver, and every entry under another id is kept. *)
Theorem start_browser_registers (E : Env) (browser : string) (headless : bool)
    (arguments : option (list string)) (w : World) (d : Driver) :
  browser ∈ ["chrome"; "firefox"] ->
  let flag := if bool_decide (browser = "chrome") then "--headless=new" else "--headless" in
  let opts := (if headless then [flag] else []) ++ default [] arguments in
  let t := env_time_ms E (trace w ++ [Launch browser opts]) in
  let sid := browser +:+ "_" +:+ pretty t in
  env_launch E (trace w) browser opts = inr d ->
  ∃ w',
    start_browser E browser headless arguments w
    = (Ret ("Browser started with session_id: " +:+ sid), w')
    ∧ trace w' = trace w ++ [Launch browser opts; TimeMs t]
    ∧ current_session w' = Some sid
    ∧ get_driver w' = (Ret d, w')
    ∧ (∀ sid', sid' ≠ sid -> drivers w' !! sid' = drivers w !! sid').
Proof.
  intros Hb flag opts t sid Hlaunch.
  assert (launch_options browser headless arguments = opts) as Hopts.
  { unfold launch_options, opts, flag, browser_options.
    by destruct (bool_decide (browser = "chrome")). }
  rewrite start_browser_unfold, (bool_decide_eq_true_2 _ Hb), Hopts.
  cbv zeta. rewrite Hlaunch. fold t. fold sid.
  eexists. split; [done|]. cbn [trace current_session drivers].
  split; [done|]. split; [done|]. split.
  - apply get_driver_Some with sid; [done|]. apply dict_lookup_insert_eq.
  - intros sid' Hne. by rewrite dict_lookup_insert_ne.
Qed.

Lemma start_browser_registers_witness :
  let w := mkWorld {[ "chrome_7" := 1%nat ]} (Some "chrome_7") [] in
  ∃ w',
    start_browser Samples.steady_env "firefox" true (Some ["-private"]) w
    = (Ret ("Browser started with session_id: " +:+ "firefox_1700000000001"), w')
    ∧ trace w' = trace w ++ [Launch "firefox" ["--headless"; "-private"];
                             TimeMs 1700000000001]
    ∧ current_session w' = Some "firefox_1700000000001"
    ∧ get_driver w' = (Ret 0%nat, w')
    ∧ (∀ sid', sid' ≠ "firefox_1700000000001" -> drivers w' !! sid' = drivers w !! sid').
Proof.
  refine (start_browser_registers Samples.steady_env "firefox" true (Some ["-private"])
            (mkWorld {[ "chrome_7" := 1%nat ]} (Some "chrome_7") []) 0%nat _ _).
  - apply elem_of_cons. right. apply elem_of_cons. by left.
  - reflexivity.
Defined.

(** When the launch raises, [start_browser] returns "Error starting
    browser: " with the text of the exception; no identifier is generated
    (the clock is not read), no entry is added and the session that was
    current stays current. *)
Theorem start_browser_launch_fails (E : Env) (browser : string) (headless : bool)
    (arguments : option (list string)) (w : World) (e : exn) :
  browser ∈ ["chrome"; "firefox"] ->
  let opts := launch_options browser headless arguments in
  env_launch E (trace w) browser opts = inl e ->
  start_browser E browser headless arguments w
  = (Ret ("Error starting browser: " +:+ str_exn e),
     add_calls [Launch browser opts] w).
Proof.
  intros Hb opts Hlaunch.
  rewrite start_browser_unfold, (bool_decide_eq_true_2 _ Hb).
  cbv zeta. fold opts. by rewrite Hlaunch.
Qed.

Lemma start_browser_launch_fails_witness :
  let E := mkEnv (fun _ _ _ => inl (EngineError "Message: session not created"))
                 (fun _ => 5) (fun _ _ _ _ _ _ => inr 0%nat)
                 (fun _ _ => inr tt) (fun _ _ => inr "") (fun s => inr s) in
  let w := mkWorld {[ "chrome_7" := 1%nat ]} (Some "chrome_7") [] in
  start_browser E "chrome" true None w
  = (Ret ("Error starting browser: " +:+ "Message: session not created"),
     add_calls [Launch "chrome" ["--headless=new"]] w).
Proof.
  intros E w.
  refine (start_browser_launch_fails E "chrome" true None w
            (EngineError "Message: session not created") _ _).
  - apply elem_of_cons. by left.
  - reflexivity.
Defined.

(** ** [close_session] *)

(** A successful [close_session] calls [quit()] once, on the current
    driver, removes exactly the current entry and clears the pointer;
    sessions registered under other ids stay in the mapping, with no current
    session to reach them. *)
Theorem close_session_removes_current (E : Env) (w : World) (sid : string)
    (d : Driver) :
  current_session w = Some sid ->
  drivers w !! sid = Some d ->
  env_command E (trace w) (DriverQuit d) = inr tt ->
  ∃ w',
    close_session E w = (Ret ("Browser session " +:+ sid +:+ " closed"), w')
    ∧ trace w' = trace w ++ [DriverQuit d]
    ∧ current_session w' = None
    ∧ drivers w' !! sid = None
    ∧ (∀ sid', sid' ≠ sid -> drivers w' !! sid' = drivers w !! sid')
    ∧ S (size (drivers w')) = size (drivers w).
Proof.
  intros Hcur Hd Hquit. unfold close_session, try_except.
  rewrite close_session_body_unfold, Hcur, Hd, Hquit.
  eexists. split; [done|]. cbn [trace current_session drivers].
  split; [done|]. split; [done|]. split; [apply dict_lookup_delete_eq|]. split.
  - intros sid' Hne. by rewrite dict_lookup_delete_ne.
  - by apply dict_size_delete with d.
Qed.

Lemma close_session_removes_current_witness :
  let w := mkWorld {[ "chrome_7" := 1%nat; "firefox_9" := 4%nat ]} (Some "firefox_9") [] in
  ∃ w',
    close_session Samples.steady_env w
    = (Ret ("Browser session " +:+ "firefox_9" +:+ " closed"), w')
    ∧ trace w' = trace w ++ [DriverQuit 4%nat]
    ∧ current_session w' = None
    ∧ drivers w' !! "firefox_9" = None
    ∧ (∀ sid', sid' ≠ "firefox_9" -> drivers w' !! sid' = drivers w !! sid')
    ∧ S (size (drivers w')) = size (drivers w).
Proof.
  refine (close_session_removes_current Samples.steady_env
            (mkWorld {[ "chrome_7" := 1%nat; "firefox_9" := 4%nat ]} (Some "firefox_9") [])
            "firefox_9" 4%nat _ _ _); reflexivity.
Defined.

(** After a successful [close_session] no tool but [start_browser] can
    work: each one reports "No active browser session" without a call, even
    while earlier sessions are still registered.  The pointer does not fall
    back to another session. *)
Theorem closed_session_leaves_none_current (E : Env) (w w1 : World) (s : string)
    (op : Op) :
  close_session_body E w = (Ret s, w1) ->
  is_start_browser op = false ->
  dispatch E op w1 = (Ret (op_error_label op +:+ ": No active browser session"), w1)
  ∧ ∀ sid d, drivers w !! sid = Some d -> current_session w ≠ Some sid ->
             drivers w1 !! sid = Some d.
Proof.
  intros Hclose Hop. rewrite close_session_body_unfold in Hclose.
  destruct (current_session w) as [cur|]; [|discriminate].
  destruct (drivers w !! cur) as [d0|]; [|discriminate].
  destruct (env_command E _ _) as [e|u]; [discriminate|].
  injection Hclose as _ <-. split.
  - by apply dispatch_no_session.
  - intros sid d Hd Hne. cbn [drivers]. rewrite dict_lookup_delete_ne; [done|]. congruence.
Qed.

Lemma closed_session_leaves_none_current_witness :
  let w := mkWorld {[ "chrome_7" := 1%nat; "firefox_9" := 4%nat ]} (Some "firefox_9") [] in
  let w1 := mkWorld {[ "chrome_7" := 1%nat ]} None [DriverQuit 4%nat] in
  dispatch Samples.steady_env (Navigate "about:blank") w1
  = (Ret ("Error navigating" +:+ ": No active browser session"), w1)
  ∧ ∀ sid d, drivers w !! sid = Some d -> current_session w ≠ Some sid ->
             drivers w1 !! sid = Some d.
Proof.
  refine (closed_session_leaves_none_current Samples.steady_env
            (mkWorld {[ "chrome_7" := 1%nat; "firefox_9" := 4%nat ]} (Some "firefox_9") [])
            (mkWorld {[ "chrome_7" := 1%nat ]} None [DriverQuit 4%nat])
            "Browser session firefox_9 closed" (Navigate "about:blank") _ _);
    vm_compute; reflexivity.
Defined.

(** ** The order of the engine calls inside a tool *)

(** [drag_and_drop] waits for the source, then for the target with the same
    timeout, then performs one drag from the element of the first wait to the
    element of the second.  A target wait that raises ends the tool before
    any gesture; the text then carries the exception of that wait.  The
    waits are reached when the timeout could be divided. *)
Theorem drag_and_drop_steps (E : Env) (w : World) (d : Driver)
    (by_ value target_by target_value : string) (timeout : option Z)
    (secs : Q) (loc target_loc : By) (source : Element) :
  get_driver w = (Ret d, w) ->
  timeout_seconds (timeout_arg timeout) = inr secs ->
  native_locator_kind by_ = Some loc ->
  native_locator_kind target_by = Some target_loc ->
  let wait1 := Until d secs presence_of_element_located loc value in
  let wait2 := Until d secs presence_of_element_located target_loc target_value in
  env_until E (trace w) d secs presence_of_element_located loc value = inr source ->
  drag_and_drop E by_ value target_by target_value timeout w =
  match env_until E (trace w ++ [wait1]) d secs presence_of_element_located
                  target_loc target_value with
  | inl e => (Ret ("Error performing drag and drop: " +:+ str_exn e),
              add_calls [wait1; wait2] w)
  | inr target =>
      let drag := Perform d [drag_and_drop_action source target] in
      (Ret (match env_command E (trace w ++ [wait1; wait2]) drag with
            | inl e => "Error performing drag and drop: " +:+ str_exn e
            | inr _ => "Drag and drop completed from " +:+ locator_text by_ value
                       +:+ " to " +:+ locator_text target_by target_value
            end),
       add_calls [wait1; wait2; drag] w)
  end.
Proof.
  intros Hdrv Hsecs Hloc Htarget wait1 wait2 Hsource.
  autounfold with tools. enter_body Hdrv. rewrite Hsecs. enter_wait.
  rewrite Hloc, Hsource.
  cbn [answer]. unfold bind at 1. rewrite wait_for_unfold, Htarget.
  cbn [record_call trace]. fold wait1.
  destruct (env_until E (trace w ++ [wait1]) _ _ _ _ _) as [e|target]; cbn [answer].
  - unfold on_error, ret, record_call, add_calls; cbn. by rewrite <- app_assoc.
  - unfold bind, command, record_call, add_calls; cbn.
    rewrite <- !app_assoc. cbn [app]. fold wait2.
    by destruct (env_command E _ _) as [e|[]].
Qed.

Lemma drag_and_drop_steps_witness :
  let w := mkWorld {[ "chrome_7" := 1%nat ]} (Some "chrome_7") [] in
  ∃ secs,
    timeout_seconds 10000 = inr secs
    ∧ drag_and_drop Samples.steady_env "id" "card" "css" ".bin" None w
      = (Ret "Drag and drop completed from id='card' to css='.bin'",
         add_calls [Until 1%nat secs presence_of_element_located ID "card";
                    Until 1%nat secs presence_of_element_located CSS_SELECTOR ".bin";
                    Perform 1%nat [drag_and_drop_action 7%nat 7%nat]] w).
Proof.
  intros w. eexists. split; [vm_compute; reflexivity|].
  refine (drag_and_drop_steps Samples.steady_env w
            1%nat "id" "card" "css" ".bin" None _ ID CSS_SELECTOR 7%nat _ _ _ _ _);
    vm_compute; reflexivity.
Defined.

(** [send_keys] clears the element it found before it types: the typing
    call comes after the clear call on the same element, and a clear that
    raises ends the tool with nothing typed.  The element is found when the
    timeout could be divided, the strategy resolves and the wait returns. *)
Theorem send_keys_clears_first (E : Env) (w : World) (d : Driver)
    (by_ value text : string) (timeout : option Z) (secs : Q) (loc : By)
    (element : Element) :
  get_driver w = (Ret d, w) ->
  timeout_seconds (timeout_arg timeout) = inr secs ->
  native_locator_kind by_ = Some loc ->
  let wait := Until d secs presence_of_element_located loc value in
  env_until E (trace w) d secs presence_of_element_located loc value = inr element ->
  send_keys E by_ value text timeout w =
  match env_command E (trace w ++ [wait]) (Clear element) with
  | inl e => (Ret ("Error entering text: " +:+ str_exn e),
              add_calls [wait; Clear element] w)
  | inr _ =>
      (Ret (match env_command E (trace w ++ [wait; Clear element])
                    (SendKeys element text) with
            | inl e => "Error entering text: " +:+ str_exn e
            | inr _ => "Text '" +:+ text +:+ "' entered into element using "
                       +:+ locator_text by_ value
            end),
       add_calls [wait; Clear element; SendKeys element text] w)
  end.
Proof.
  intros Hdrv Hsecs Hloc wait Hwait.
  autounfold with tools. enter_body Hdrv. rewrite Hsecs. enter_wait.
  rewrite Hloc, Hwait.
  cbn [answer]. fold wait. unfold bind, command, record_call, add_calls; cbn.
  destruct (env_command E (trace w ++ [wait]) _) as [e|[]]; cbn.
  - by rewrite <- app_assoc.
  - rewrite <- !app_assoc. cbn [app].
    by destruct (env_command E _ _) as [e|[]].
Qed.

Lemma send_keys_clears_first_witness :
  let w := mkWorld {[ "chrome_7" := 1%nat ]} (Some "chrome_7") [] in
  ∃ secs,
    timeout_seconds 2000 = inr secs
    ∧ send_keys Samples.steady_env "name" "q" "rocq" (Some 2000) w
      = (Ret "Text 'rocq' entered into element using name='q'",
         add_calls [Until 1%nat secs presence_of_element_located NAME "q";
                    Clear 7%nat; SendKeys 7%nat "rocq"] w).
Proof.
  intros w. eexists. split; [vm_compute; reflexivity|].
  refine (send_keys_clears_first Samples.steady_env w
            1%nat "name" "q" "rocq" (Some 2000) _ NAME 7%nat _ _ _ _);
    vm_compute; reflexivity.
Defined.

(** ** [take_screenshot] *)

(** Without an output path -- [None] or the empty string -- [take_screenshot]
    returns the base64 text of the engine inside its result and makes no
    call to the file system. *)
Theorem take_screenshot_inline (E : Env) (w : World) (d : Driver)
    (output_path : option string) (shot : string) :
  get_driver w = (Ret d, w) ->
  output_path = None ∨ output_path = Some "" ->
  env_query E (trace w) (ScreenshotAsBase64 d) = inr shot ->
  take_screenshot E output_path w
  = (Ret ("Screenshot captured as base64: " +:+ shot),
     add_calls [ScreenshotAsBase64 d] w).
Proof.
  intros Hdrv Hpath Hshot.
  assert (truthy output_path = None) as Hfalsy by (by destruct Hpath as [->| ->]).
  unfold take_screenshot, try_except, take_screenshot_body.
  rewrite (bind_get_driver_ret _ w d Hdrv).
  unfold bind at 1, query. rewrite Hshot. cbn [answer]. by rewrite Hfalsy.
Qed.

Lemma take_screenshot_inline_witness :
  let w := mkWorld {[ "chrome_7" := 1%nat ]} (Some "chrome_7") [] in
  take_screenshot Samples.steady_env (Some "") w
  = (Ret ("Screenshot captured as base64: " +:+ "aGVsbG8="),
     add_calls [ScreenshotAsBase64 1%nat] w).
Proof.
  refine (take_screenshot_inline Samples.steady_env
            (mkWorld {[ "chrome_7" := 1%nat ]} (Some "chrome_7") [])
            1%nat (Some "") "aGVsbG8=" _ _ _); [reflexivity | by right | reflexivity].
Defined.

(** With an output path, [take_screenshot] opens the file after it has the
    screenshot.  If the open raises, nothing is written or closed.  Once the
    file is open it is closed again as the last call, also when decoding or
    writing raises; the decoded bytes are written only when decoding
    succeeded. *)
Theorem take_screenshot_closes_file (E : Env) (w : World) (d : Driver)
    (output_path : option string) (path shot : string) :
  get_driver w = (Ret d, w) ->
  truthy output_path = Some path ->
  env_query E (trace w) (ScreenshotAsBase64 d) = inr shot ->
  let opened := [ScreenshotAsBase64 d; OpenWb path] in
  match env_command E (trace w ++ [ScreenshotAsBase64 d]) (OpenWb path) with
  | inl e =>
      take_screenshot E output_path w
      = (Ret ("Error taking screenshot: " +:+ str_exn e), add_calls opened w)
  | inr _ =>
      let written := match env_b64decode E shot with
                     | inl _ => []
                     | inr data => [FileWrite path data]
                     end in
      ∃ s, take_screenshot E output_path w
           = (Ret s, add_calls (opened ++ written ++ [FileClose path]) w)
  end.
Proof.
  intros Hdrv Hpath Hshot opened.
  destruct (env_command E (trace w ++ [ScreenshotAsBase64 d]) (OpenWb path))
    as [e|[]] eqn:Hopen;
    unfold take_screenshot, try_except, take_screenshot_body;
    rewrite (bind_get_driver_ret _ w d Hdrv);
    unfold bind at 1, query; rewrite Hshot; cbn [answer]; rewrite Hpath;
    unfold bind at 1, command at 1; cbn [record_call trace]; rewrite Hopen;
    cbn [answer].
  - unfold on_error, ret. by rewrite !record_call_add_calls, add_calls_app.
  - clear Hopen. unfold bind at 1, with_exit, bind at 2, b64decode.
    destruct (env_b64decode E shot) as [e|data]; cbn [answer].
    + unfold bind, command, raise.
      destruct (env_command E _ (FileClose path)) as [e'|[]]; cbn [answer];
        unfold on_error, ret; eexists;
        rewrite !record_call_add_calls, !add_calls_app; reflexivity.
    + unfold bind, command, raise.
      destruct (env_command E _ (FileWrite path data)) as [e|[]]; cbn [answer];
        destruct (env_command E _ (FileClose path)) as [e'|[]]; cbn [answer];
        unfold on_error, ret; eexists;
        rewrite !record_call_add_calls, !add_calls_app; reflexivity.
Qed.

Lemma take_screenshot_closes_file_witness :
  let E := mkEnv (fun _ _ _ => inr 0%nat) (fun _ => 5) (fun _ _ _ _ _ _ => inr 0%nat)
                 (fun _ c => match c with
                             | FileWrite _ _ => inl (EngineError "[Errno 28] No space left on device")
                             | _ => inr tt
                             end)
                 (fun _ _ => inr "aGVsbG8=") (fun s => inr s) in
  let w := mkWorld {[ "chrome_7" := 1%nat ]} (Some "chrome_7") [] in
  ∃ s, take_screenshot E (Some "/tmp/page.png") w
       = (Ret s, add_calls ([ScreenshotAsBase64 1%nat; OpenWb "/tmp/page.png"]
                            ++ [FileWrite "/tmp/page.png" "aGVsbG8="]
                            ++ [FileClose "/tmp/page.png"]) w).
Proof.
  intros E w.
  exact (take_screenshot_closes_file E w 1%nat (Some "/tmp/page.png")
           "/tmp/page.png" "aGVsbG8=" eq_refl eq_refl eq_refl).
Defined.

(** ** [cleanup] *)

Lemma quits_app (l1 l2 : list Call) : quits (l1 ++ l2) = quits l1 ++ quits l2.
Proof. apply omap_app. Qed.

Lemma sweep_quits (E : Env) (l : list (string * Driver)) (w : World) :
  ∃ new, for_each l (cleanup_step E) w = (Ret tt, add_calls new w)
         ∧ quits new = l.*2.
Proof.
  revert w. induction l as [|[sid d] l IH]; intros w; cbn [for_each].
  - exists []. by rewrite add_calls_nil.
  - unfold bind at 1. rewrite cleanup_step_unfold.
    match goal with
    | |- context [add_calls ?first w] =>
        destruct (IH (add_calls first w)) as (new & -> & Hquits);
        exists (first ++ new)
    end.
    rewrite add_calls_app. split; [done|].
    rewrite quits_app, Hquits.
    by destruct (env_command E _ _).
Qed.

(** [cleanup] calls [quit()] on the drivers in the order in which their
    sessions were registered, exactly once for each registered session --
    the current one and all others -- and makes no call at all when the
    mapping is empty; run a second time it does nothing. *)
Theorem cleanup_quits_each_once (E : Env) (w : World) :
  (∃ new,
     cleanup E w = (Ret tt, mkWorld ∅ None (trace w ++ new))
     ∧ quits new = (dict_items (drivers w)).*2
     ∧ (dict_wf (drivers w) ->
        length (quits new) = size (drivers w)
        ∧ quits new ≡ₚ (map_to_list (entries (drivers w))).*2))
  ∧ cleanup E (snd (cleanup E w)) = (Ret tt, snd (cleanup E w)).
Proof.
  assert (∀ w0, drivers w0 = ∅ -> current_session w0 = None ->
                cleanup E w0 = (Ret tt, w0)) as Hidle.
  { intros [ds cur tr] Hds Hcur. cbn in Hds, Hcur. subst ds cur.
    reflexivity. }
  destruct (sweep_quits E (dict_items (drivers w)) w) as (new & Hrun & Hquits).
  assert (cleanup E w = (Ret tt, mkWorld ∅ None (trace w ++ new))) as Hclean.
  { unfold cleanup, bind at 1, get_world. unfold bind at 1. by rewrite Hrun. }
  split.
  - exists new. split; [done|]. split; [done|]. intros Hwf.
    pose proof (dict_items_perm (drivers w) Hwf) as Hperm.
    rewrite Hquits. split; [|by rewrite Hperm].
    rewrite length_fmap, Hperm. apply length_map_to_list.
  - rewrite Hclean. by apply Hidle.
Qed.

Lemma cleanup_quits_each_once_witness :
  let w := snd (run Samples.steady_env
                  [StartBrowser "chrome" false None; StartBrowser "firefox" false None;
                   StartBrowser "chrome" true None; StartBrowser "firefox" true None]
                  initial_world) in
  ∃ new,
    cleanup Samples.steady_env w = (Ret tt, mkWorld ∅ None (trace w ++ new))
    ∧ quits new = [0%nat; 2%nat; 4%nat; 6%nat]
    ∧ length (quits new) = size (drivers w).
Proof.
  intros w.
  destruct (proj1 (cleanup_quits_each_once Samples.steady_env w))
    as (new & Hrun & Hquits & Hwf).
  exists new. split; [exact Hrun|]. split; [rewrite Hquits; reflexivity|].
  apply Hwf, (reachable_dict_wf Samples.steady_env), run_reachable, reachable_initial.
Defined.

Example cleanup_two_sessions :
  let w := mkWorld {[ "chrome_7" := 1%nat; "firefox_9" := 4%nat ]} (Some "chrome_7") [] in
  let w1 := snd (cleanup Samples.failing_quit_env w) in
  length (quits (trace w1)) = 2%nat
  ∧ drivers w1 = ∅
  ∧ cleanup Samples.failing_quit_env w1 = (Ret tt, w1).
Proof. repeat split; reflexivity. Qed.

(** ** Session identifiers *)

(** After any sequence of dispatcher operations, every identifier in the
    mapping is "chrome" or "firefox", an underscore, and the decimal text of
    a millisecond reading that the clock gave during the run. *)
Theorem registered_ids_format (E : Env) (ops : list Op) (sid : string) :
  let w := snd (run E ops initial_world) in
  is_Some (drivers w !! sid) ->
  ∃ browser t,
    browser ∈ ["chrome"; "firefox"]
    ∧ sid = browser +:+ "_" +:+ pretty t
    ∧ TimeMs t ∈ trace w.
Proof.
  intros w Hsid.
  exact (reachable_ids_issued E w
           (run_reachable E ops initial_world (reachable_initial E)) sid Hsid).
Qed.

Lemma registered_ids_format_witness :
  let w := snd (run Samples.steady_env
                  [StartBrowser "chrome" false None; StartBrowser "firefox" true None;
                   CloseSession]
                  initial_world) in
  ∃ browser t,
    browser ∈ ["chrome"; "firefox"]
    ∧ "chrome_1700000000001" = browser +:+ "_" +:+ pretty t
    ∧ TimeMs t ∈ trace w.
Proof.
  refine (registered_ids_format Samples.steady_env
            [StartBrowser "chrome" false None; StartBrowser "firefox" true None;
             CloseSession]
            "chrome_1700000000001" _).
  exists 0%nat. reflexivity.
Defined.

(** [generate_session_id] gives two sessions the same identifier exactly
    when they have the same browser kind and were given the same millisecond
    reading; it reads the clock once and does not touch the registry. *)
Theorem generate_session_id_collides_iff (E E' : Env) (b b' : string) (w w' : World) :
  b ∈ ["chrome"; "firefox"] ->
  b' ∈ ["chrome"; "firefox"] ->
  (fst (generate_session_id E b w) = fst (generate_session_id E' b' w')
   <-> b = b' ∧ env_time_ms E (trace w) = env_time_ms E' (trace w'))
  ∧ snd (generate_session_id E b w) = add_calls [TimeMs (env_time_ms E (trace w))] w.
Proof.
  intros Hb Hb'. split; [|done].
  unfold generate_session_id, bind, time_ms, ret; cbn [fst]. split.
  - intros [= Heq]. by apply session_id_inj.
  - by intros [-> ->].
Qed.

Lemma generate_session_id_collides_iff_witness :
  (fst (generate_session_id Samples.frozen_clock_env "chrome" initial_world)
   = fst (generate_session_id Samples.steady_env "chrome" initial_world)
   <-> "chrome" = "chrome"
       ∧ env_time_ms Samples.frozen_clock_env (trace initial_world)
         = env_time_ms Samples.steady_env (trace initial_world))
  ∧ snd (generate_session_id Samples.frozen_clock_env "chrome" initial_world)
    = add_calls [TimeMs (env_time_ms Samples.frozen_clock_env (trace initial_world))]
        initial_world.
Proof.
  refine (generate_session_id_collides_iff Samples.frozen_clock_env Samples.steady_env
            "chrome" "chrome" initial_world initial_world _ _);
    apply elem_of_cons; by left.
Defined.

(** ** Letter case of a locator strategy *)

Lemma lower_ascii_idemp (c : ascii) : lower_ascii (lower_ascii c) = lower_ascii c.
Proof. by destruct c as [[] [] [] [] [] [] [] []]. Qed.

Lemma lower_idemp (s : string) : lower (lower s) = lower s.
Proof.
  induction s as [|c s IH]; [done|].
  cbn [lower]. by rewrite lower_ascii_idemp, IH.
Qed.

(** [get_locator] looks at a strategy only through its lower-casing: two
    strategies that differ in letter case alone resolve to the same locator
    kind or are both rejected, and a strategy resolves like its own
    lower-casing.  The error text quotes the strategy as it was given. *)
Theorem get_locator_ignores_case (by_ other : string) (w : World) :
  lower by_ = lower other ->
  (∀ loc, get_locator by_ w = (Ret loc, w) <-> get_locator other w = (Ret loc, w))
  ∧ (∀ loc, get_locator by_ w = (Ret loc, w) <-> get_locator (lower by_) w = (Ret loc, w))
  ∧ (native_locator_kind by_ = None ->
     get_locator by_ w = (Raise (ValueError ("Unsupported locator strategy: " +:+ by_)), w)
     ∧ get_locator other w
       = (Raise (ValueError ("Unsupported locator strategy: " +:+ other)), w)).
Proof.
  intros Hcase.
  assert (native_locator_kind other = native_locator_kind by_) as Hother
    by (unfold native_locator_kind; by rewrite Hcase).
  assert (native_locator_kind (lower by_) = native_locator_kind by_) as Hlower
    by (unfold native_locator_kind; by rewrite lower_idemp).
  rewrite !get_locator_spec, Hother, Hlower.
  destruct (native_locator_kind by_) as [kind|].
  - split; [done|]. split; [done|]. intros [=].
  - split; [intros loc; split; intros [=] |].
    split; [intros loc; split; intros [=] | done].
Qed.

Lemma get_locator_ignores_case_witness :
  (∀ loc, get_locator "XPath" initial_world = (Ret loc, initial_world)
          <-> get_locator "xPATH" initial_world = (Ret loc, initial_world))
  ∧ (∀ loc, get_locator "XPath" initial_world = (Ret loc, initial_world)
            <-> get_locator (lower "XPath") initial_world = (Ret loc, initial_world))
  ∧ (native_locator_kind "XPath" = None ->
     get_locator "XPath" initial_world
     = (Raise (ValueError ("Unsupported locator strategy: " +:+ "XPath")), initial_world)
     ∧ get_locator "xPATH" initial_world
       = (Raise (ValueError ("Unsupported locator strategy: " +:+ "xPATH")), initial_world)).
Proof.
  refine (get_locator_ignores_case "XPath" "xPATH" initial_world _). reflexivity.
Defined.
